(** * Isometric tile grids: projection, sheet slicing, grid enumeration
      and the per-tile wave animation

    A shallow embedding of the arithmetic core of the pages
    [src/components/FloorLab.tsx] (FloorLab and BlocksFloor),
    [src/components/FloorOnly.tsx] and [src/app/game/page.tsx] (GameRoom
    and GrassBlock).

    Conventions.
    - Pixel sizes, counts and indices are JavaScript numbers holding
      integers far below 2^53; they are modelled as [Z], and
      [Math.floor (a / b)] as a quotient that records what JavaScript does
      for a zero divisor (see [floor_div]).
    - Screen coordinates, the tile constants and the animation clock are
      JavaScript numbers used as reals; they are modelled in [R], that is
      over exact arithmetic, with [Math.cos] as [cos].
    - A [for (let i = 0; i < n; i++)] loop over an array that is pushed to
      is modelled by [for_upto], which threads the array through the
      iterations. *)

From Stdlib Require Import ZArith List Lia Bool.
From Stdlib Require Import Reals Lra.
From Stdlib Require String.
Import ListNotations.

Set Implicit Arguments.

(** ** Counted loops *)

Section Loops.
Variable St : Type.

(** [n] iterations of [body] with the counter starting at [i]. *)
Fixpoint for_loop (n : nat) (i : Z) (body : Z -> St -> St) (st : St) : St :=
  match n with
  | O => st
  | S n' => for_loop n' (i + 1) body (body i st)
  end.

(** [for (let i = 0; i < bound; i++) body(i)]: no iteration at all when
    [bound <= 0]. *)
Definition for_upto (bound : Z) (body : Z -> St -> St) (st : St) : St :=
  for_loop (Z.to_nat bound) 0 body st.
End Loops.

(** The counters [0, 1, ..., n-1] a loop goes through. *)
Definition counters (n : nat) : list Z := map Z.of_nat (seq 0 n).

(** The array a two-level loop builds when its body pushes [f outer inner]:
    used as the reference the loops of the pages are compared with. *)
Definition row_major (A : Type) (outer inner : Z) (f : Z -> Z -> A) : list A :=
  flat_map (fun o => map (f o) (counters (Z.to_nat inner)))
           (counters (Z.to_nat outer)).

(** ** Grid enumeration *)

Module Grid.

(** FloorLab, FloorOnly and BlocksFloor push [{ row: r, col: c }]. *)
Record coord := { row : Z; col : Z }.

(** [grid] of FloorLab (rows and cols are component state there; FloorOnly
    and BlocksFloor run the same loop at ROWS = 6, COLS = 8). *)
Definition grid (rows cols : Z) : list coord :=
  for_upto rows
    (fun r coords =>
       for_upto cols
         (fun c coords => coords ++ [ {| row := r; col := c |} ])
         coords)
    [].

Definition ROWS : Z := 6.
Definition COLS : Z := 8.
Definition grid_FloorOnly : list coord := grid ROWS COLS.

(** GameRoom pushes [{ x: i, y: j }] with both bounds the literal 16. *)
Record item := { x : Z; y : Z }.

Definition grid_GameRoom : list item :=
  for_upto 16
    (fun i items =>
       for_upto 16
         (fun j items => items ++ [ {| x := i; y := j |} ])
         items)
    [].

End Grid.

(** ** Sheet slicing and frame selection (FloorLab) *)

Module Sheet.
Local Open Scope Z_scope.

Inductive Mode := sheet | tile | cuboid.

(** pixi.js [Rectangle (x, y, width, height)]. *)
Record Rectangle :=
  { rect_x : Z; rect_y : Z; rect_width : Z; rect_height : Z }.

(** pixi.js [Texture]: a pixel source (an opaque handle here) and the
    frame of it that the texture shows.  The texture [Assets.load]
    resolves to shows the whole image; [width] and [height] of a texture
    are those of its frame. *)
Definition Source := nat.
Record Texture := { source : Source; frame : Rectangle }.

Definition width (t : Texture) : Z := rect_width (frame t).
Definition height (t : Texture) : Z := rect_height (frame t).

(** What [Math.floor (a / b)] evaluates to on integers: a zero divisor
    gives [NaN] or an infinity, any other one the floored quotient. *)
Inductive num := NaN | Infinity (positive : bool) | Fin (z : Z).

Definition floor_div (a b : Z) : num :=
  if b =? 0 then (if a =? 0 then NaN else Infinity (0 <? a))
  else Fin (a / b).

(** [!n] *)
Definition falsy (n : num) : bool :=
  match n with
  | NaN | Fin 0 => true
  | _ => false
  end.

Inductive Error :=
| NotEvenlyDivide (frameSize sheetWidth sheetHeight : Z)
    (* "Frame size ${frameSize}px does not evenly divide sheet (${w}x${h})." *)
| LoadRejected.
    (* [Assets.load] rejected *)

Inductive outcome (A : Type) :=
| Returns (a : A)
| Throws (e : Error)
| Diverges.
Arguments Throws {A} e.
Arguments Diverges {A}.

Record SheetInfo :=
  { info_cols : num; info_rows : num; info_width : Z; info_height : Z }.

(** The two loops of the load effect, [y] over the rows and [x] over the
    columns, pushing one texture per frame.  With finite bounds they are
    counted loops; [y < Infinity] never fails, so that loop has no end;
    against [NaN] or [-Infinity] the test fails at once. *)
Definition frames (src : Source) (frameSize : Z) (rows cols : num)
  : option (list Texture) :=
  match rows, cols with
  | Fin rows, Fin cols =>
      Some
        (for_upto rows
           (fun y list =>
              for_upto cols
                (fun x list =>
                   let rect :=
                     {| rect_x := x * frameSize; rect_y := y * frameSize;
                        rect_width := frameSize; rect_height := frameSize |} in
                   list ++ [ {| source := src; frame := rect |} ])
                list)
           [])
  | Infinity true, _ => None
  | Fin rows, Infinity true => if 0 <? rows then None else Some []
  | _, _ => Some []
  end.

(** The sheet branch of the load effect between [Assets.load] and the
    state setters (FloorLab.tsx, lines 133-153): the frame list and the
    sheet info, or the thrown error. *)
Definition slice (base : Texture) (frameSize : Z)
  : outcome (list Texture * SheetInfo) :=
  let cols := floor_div (width base) frameSize in
  let rows := floor_div (height base) frameSize in
  if falsy cols || falsy rows then
    Throws (NotEvenlyDivide frameSize (width base) (height base))
  else
    match frames (source base) frameSize rows cols with
    | Some list =>
        Returns (list,
                 {| info_cols := cols; info_rows := rows;
                    info_width := width base; info_height := height base |})
    | None => Diverges
    end.

(** The state of FloorLab that the load effect and the frame selection
    read and write. *)
Record State :=
  { mode : Mode;
    frameSize : Z;
    frameIndex : Z;
    textures : list Texture;
    sheetInfo : option SheetInfo;
    error : option Error }.

(** The state FloorLab starts in ([useState] defaults). *)
Definition initial : State :=
  {| mode := sheet; frameSize := 18; frameIndex := 0;
     textures := []; sheetInfo := None; error := None |}.

(** The state setters of the component. *)
Definition setTextures (l : list Texture) (st : State) : State :=
  {| mode := mode st; frameSize := frameSize st; frameIndex := frameIndex st;
     textures := l; sheetInfo := sheetInfo st; error := error st |}.

Definition setSheetInfo (i : option SheetInfo) (st : State) : State :=
  {| mode := mode st; frameSize := frameSize st; frameIndex := frameIndex st;
     textures := textures st; sheetInfo := i; error := error st |}.

Definition setError (e : option Error) (st : State) : State :=
  {| mode := mode st; frameSize := frameSize st; frameIndex := frameIndex st;
     textures := textures st; sheetInfo := sheetInfo st; error := e |}.

Definition setFrameIndex (f : Z -> Z) (st : State) : State :=
  {| mode := mode st; frameSize := frameSize st;
     frameIndex := f (frameIndex st);
     textures := textures st; sheetInfo := sheetInfo st; error := error st |}.

(** The load effect, run to its end and not cancelled; [loaded] is what
    [Assets.load imagePath] settles to, [None] for a rejection.  The
    effect first clears [error], [textures] and [sheetInfo]; whatever is
    thrown ends in [setError].  The result [None]: the effect never gets
    to a setter.  [index % list.length] is the remainder with the sign of
    [index], [Z.rem]. *)
Definition load_effect (loaded : option Texture) (st : State) : option State :=
  let st := setSheetInfo None (setTextures [] (setError None st)) in
  match loaded with
  | None => Some (setError (Some LoadRejected) st)
  | Some base =>
      match mode st with
      | sheet =>
          match slice base (frameSize st) with
          | Returns (list, info) =>
              Some
                (setFrameIndex
                   (fun index =>
                      if (length list =? 0)%nat then 0
                      else Z.rem index (Z.of_nat (length list)))
                   (setSheetInfo (Some info) (setTextures list st)))
          | Throws e => Some (setError (Some e) st)
          | Diverges => None
          end
      | _ => Some (setFrameIndex (fun _ => 0) (setTextures [base] st))
      end
  end.

(** A JavaScript value that may be [null] or [undefined]. *)
Inductive nullable (A : Type) := null | undefined | value (a : A).
Arguments null {A}.
Arguments undefined {A}.

(** [arr[i]] for an integer [i]: [undefined] outside of the array. *)
Definition at_index (A : Type) (arr : list A) (i : Z) : nullable A :=
  if i <? 0 then undefined
  else match nth_error arr (Z.to_nat i) with
       | Some a => value a
       | None => undefined
       end.

Definition activeTexture (textures : list Texture) (frameIndex : Z)
    (mode : Mode) : nullable Texture :=
  if (length textures =? 0)%nat then null
  else
    match mode with
    | sheet =>
        let index :=
          Z.max 0 (Z.min frameIndex (Z.of_nat (length textures) - 1)) in
        at_index textures index
    | _ => at_index textures 0
    end.

(** A frame rectangle that stays inside an image of the given size. *)
Definition inside (w h : Z) (r : Rectangle) : Prop :=
  0 <= rect_x r /\ 0 <= rect_y r /\
  rect_x r + rect_width r <= w /\ rect_y r + rect_height r <= h.

(** The texture [Assets.load] resolves to for a [w] by [h] image. *)
Definition whole (src : Source) (w h : Z) : Texture :=
  {| source := src;
     frame := {| rect_x := 0; rect_y := 0;
                 rect_width := w; rect_height := h |} |}.

(** The frame in column [x] of row [y] of a sheet cut in squares of
    [frameSize]: offset [(x * frameSize, y * frameSize)], size
    [(frameSize, frameSize)]. *)
Definition frame_at (src : Source) (frameSize : Z) (y x : Z) : Texture :=
  {| source := src;
     frame := {| rect_x := x * frameSize; rect_y := y * frameSize;
                 rect_width := frameSize; rect_height := frameSize |} |}.

End Sheet.

(** ** Isometric projection *)

Module Iso.
Local Open Scope R_scope.

(** FloorLab.tsx, [isoPosition]. *)
Definition isoPosition (col row tileWidth tileHeight : R) : R * R :=
  ((col - row) * (tileWidth / 2),
   (col + row) * (tileHeight / 2)).

(** FloorLab: the tile footprint handed to [isoPosition]. *)
Definition tileWidthPx (mode : Sheet.Mode)
    (frameSize sheetScale tileWidth : R) : R :=
  match mode with
  | Sheet.sheet => frameSize * sheetScale
  | _ => Rmax 1 tileWidth
  end.

Definition tileHeightPx (mode : Sheet.Mode)
    (frameSize sheetScale tileHeight : R) : R :=
  match mode with
  | Sheet.sheet => (frameSize * sheetScale) / 2
  | _ => Rmax 1 tileHeight
  end.

(** BlocksFloor (and, inline, FloorOnly). *)
Definition TILE_W : R := 128.
Definition TILE_H : R := 64.

Definition iso (col row centerX centerY : R) : R * R :=
  let x := centerX + (col - row) * (TILE_W / 2) in
  let y := centerY + (col + row) * (TILE_H / 2) in
  (x, y).

(** GameRoom: [screenToIsometric], first for any tile constant and then
    at the one of the page. *)
Definition screenToIsometric_at (TILE : R) (gridX gridY : R) : R * R :=
  let X := gridX * TILE in
  let Y := gridY * TILE in
  (0.5 * X - 0.5 * Y, 0.25 * X + 0.25 * Y).

Definition TILE_PX : R := 18.
Definition SCALE : R := 4.
Definition TILE : R := TILE_PX * SCALE.

Definition screenToIsometric (gridX gridY : R) : R * R :=
  screenToIsometric_at TILE gridX gridY.

End Iso.

(** ** The wave animation of a tile (GrassBlock) *)

Module Anim.
Local Open Scope R_scope.

(** What a mounted GrassBlock holds: its grid column [x] (a prop), the
    [elevation] state, and the two refs. *)
Record GrassBlock :=
  { x : R;
    elevation : R;
    timeRef : R;
    animateRef : bool }.

Inductive Phase := Idle | Running.

Definition phase (g : GrassBlock) : Phase :=
  if animateRef g then Running else Idle.

(** The effect on [animate]: it runs at mount and at each change of the
    prop. *)
Definition animate_effect (animate : bool) (g : GrassBlock) : GrassBlock :=
  {| x := x g;
     elevation := if animate then elevation g else 0;
     timeRef := timeRef g;
     animateRef := animate |}.

Definition mount (animate : bool) (col : R) : GrassBlock :=
  animate_effect animate
    {| x := col; elevation := 0; timeRef := 0; animateRef := animate |}.

Definition tick (g : GrassBlock) : GrassBlock :=
  if negb (animateRef g) then g
  else
    let t := timeRef g + 0.1 in
    {| x := x g;
       elevation := 16 * cos (t - x g);
       timeRef := t;
       animateRef := animateRef g |}.

Inductive event := enable | disable | frame.

Definition step (g : GrassBlock) (e : event) : GrassBlock :=
  match e with
  | enable => animate_effect true g
  | disable => animate_effect false g
  | frame => tick g
  end.

Definition run (g : GrassBlock) (es : list event) : GrassBlock :=
  fold_left step es g.

(** What holds of a tile at rest; every transition keeps it. *)
Definition rests (g : GrassBlock) : Prop :=
  phase g = Idle -> elevation g = 0.

End Anim.

(** ** The FloorLab page: controls, effects and what it draws *)

Module Lab.
Import String.
Local Open Scope R_scope.

(** [defaults] *)
Definition sheetPath : string := "/assets/sprites/structural_blocks.png".
Definition tilePath : string := "/assets/room/floor-128.png".
Definition cuboidPath : string := "/assets/room/new-floor-block.png".

(** The component state: the part the load effect and the frame selection
    work on ([core]) and the rest of the [useState] cells.  The viewport is
    an argument of the rendering. *)
Record FloorLab :=
  { core : Sheet.State;
    imagePath : string;
    sheetScale : R;
    tileWidth : R;
    tileHeight : R;
    fitFlatTile : bool;
    uniformCuboid : bool;
    rows : Z;
    cols : Z }.

Definition initial : FloorLab :=
  {| core := Sheet.initial;
     imagePath := sheetPath;
     sheetScale := 4;
     tileWidth := 128;
     tileHeight := 64;
     fitFlatTile := true;
     uniformCuboid := true;
     rows := 6;
     cols := 8 |}.

(** Setters; each takes the updater form [prev => ...]. *)
Definition setCore (f : Sheet.State -> Sheet.State) (s : FloorLab) : FloorLab :=
  {| core := f (core s); imagePath := imagePath s;
     sheetScale := sheetScale s;
     tileWidth := tileWidth s; tileHeight := tileHeight s;
     fitFlatTile := fitFlatTile s; uniformCuboid := uniformCuboid s;
     rows := rows s; cols := cols s |}.

Definition setMode (m : Sheet.Mode) : FloorLab -> FloorLab :=
  setCore (fun st =>
    {| Sheet.mode := m; Sheet.frameSize := Sheet.frameSize st;
       Sheet.frameIndex := Sheet.frameIndex st;
       Sheet.textures := Sheet.textures st;
       Sheet.sheetInfo := Sheet.sheetInfo st; Sheet.error := Sheet.error st |}).

Definition setFrameSize (f : Z -> Z) : FloorLab -> FloorLab :=
  setCore (fun st =>
    {| Sheet.mode := Sheet.mode st; Sheet.frameSize := f (Sheet.frameSize st);
       Sheet.frameIndex := Sheet.frameIndex st;
       Sheet.textures := Sheet.textures st;
       Sheet.sheetInfo := Sheet.sheetInfo st; Sheet.error := Sheet.error st |}).

Definition setFrameIndex (f : Z -> Z) : FloorLab -> FloorLab :=
  setCore (Sheet.setFrameIndex f).

Definition setImagePath (f : string -> string) (s : FloorLab) : FloorLab :=
  {| core := core s; imagePath := f (imagePath s);
     sheetScale := sheetScale s;
     tileWidth := tileWidth s; tileHeight := tileHeight s;
     fitFlatTile := fitFlatTile s; uniformCuboid := uniformCuboid s;
     rows := rows s; cols := cols s |}.

Definition setSheetScale (f : R -> R) (s : FloorLab) : FloorLab :=
  {| core := core s; imagePath := imagePath s;
     sheetScale := f (sheetScale s);
     tileWidth := tileWidth s; tileHeight := tileHeight s;
     fitFlatTile := fitFlatTile s; uniformCuboid := uniformCuboid s;
     rows := rows s; cols := cols s |}.

Definition setTileWidth (v : R) (s : FloorLab) : FloorLab :=
  {| core := core s; imagePath := imagePath s;
     sheetScale := sheetScale s;
     tileWidth := v; tileHeight := tileHeight s;
     fitFlatTile := fitFlatTile s; uniformCuboid := uniformCuboid s;
     rows := rows s; cols := cols s |}.

Definition setTileHeight (v : R) (s : FloorLab) : FloorLab :=
  {| core := core s; imagePath := imagePath s;
     sheetScale := sheetScale s;
     tileWidth := tileWidth s; tileHeight := v;
     fitFlatTile := fitFlatTile s; uniformCuboid := uniformCuboid s;
     rows := rows s; cols := cols s |}.

Definition setFitFlatTile (b : bool) (s : FloorLab) : FloorLab :=
  {| core := core s; imagePath := imagePath s;
     sheetScale := sheetScale s;
     tileWidth := tileWidth s; tileHeight := tileHeight s;
     fitFlatTile := b; uniformCuboid := uniformCuboid s;
     rows := rows s; cols := cols s |}.

Definition setUniformCuboid (b : bool) (s : FloorLab) : FloorLab :=
  {| core := core s; imagePath := imagePath s;
     sheetScale := sheetScale s;
     tileWidth := tileWidth s; tileHeight := tileHeight s;
     fitFlatTile := fitFlatTile s; uniformCuboid := b;
     rows := rows s; cols := cols s |}.

Definition setRows (v : Z) (s : FloorLab) : FloorLab :=
  {| core := core s; imagePath := imagePath s;
     sheetScale := sheetScale s;
     tileWidth := tileWidth s; tileHeight := tileHeight s;
     fitFlatTile := fitFlatTile s; uniformCuboid := uniformCuboid s;
     rows := v; cols := cols s |}.

Definition setCols (v : Z) (s : FloorLab) : FloorLab :=
  {| core := core s; imagePath := imagePath s;
     sheetScale := sheetScale s;
     tileWidth := tileWidth s; tileHeight := tileHeight s;
     fitFlatTile := fitFlatTile s; uniformCuboid := uniformCuboid s;
     rows := rows s; cols := v |}.

(** [v || d] on integers, on reals and on strings: [0] and the empty
    string are the falsy values that occur. *)
Definition or_Z (v d : Z) : Z := if (v =? 0)%Z then d else v.
Definition or_R (v d : R) : R := if Req_EM_T v 0 then d else v.
Definition or_string (v d : string) : string :=
  if String.eqb v "" then d else v.

Definition mode_eqb (a b : Sheet.Mode) : bool :=
  match a, b with
  | Sheet.sheet, Sheet.sheet | Sheet.tile, Sheet.tile
  | Sheet.cuboid, Sheet.cuboid => true
  | _, _ => false
  end.

(** The effect on [mode] ("Reset defaults when switching modes"). *)
Definition mode_effect (s : FloorLab) : FloorLab :=
  match Sheet.mode (core s) with
  | Sheet.sheet =>
      setSheetScale (fun prev => or_R prev 4)
        (setFrameSize (fun prev => or_Z prev 18)
           (setImagePath (fun prev => or_string prev sheetPath) s))
  | Sheet.tile =>
      setImagePath
        (fun prev => if String.eqb prev sheetPath then tilePath else prev) s
  | Sheet.cuboid =>
      setImagePath
        (fun prev => if String.eqb prev sheetPath then cuboidPath else prev) s
  end.

(** [onChange] of the mode select. *)
Definition select_onChange (value : Sheet.Mode) (s : FloorLab) : FloorLab :=
  let s := setMode value s in
  match value with
  | Sheet.sheet => setImagePath (fun _ => sheetPath) s
  | Sheet.tile => setImagePath (fun _ => tilePath) s
  | Sheet.cuboid => setImagePath (fun _ => cuboidPath) s
  end.

(** [onClick] of "Reset mode defaults". *)
Definition reset_onClick (s : FloorLab) : FloorLab :=
  match Sheet.mode (core s) with
  | Sheet.sheet =>
      setFrameIndex (fun _ => 0%Z)
        (setSheetScale (fun _ => 4)
           (setFrameSize (fun _ => 18%Z)
              (setImagePath (fun _ => sheetPath) s)))
  | Sheet.tile =>
      setFitFlatTile true
        (setTileHeight 64
           (setTileWidth 128 (setImagePath (fun _ => tilePath) s)))
  | Sheet.cuboid =>
      setUniformCuboid true
        (setTileHeight 64
           (setTileWidth 128 (setImagePath (fun _ => cuboidPath) s)))
  end.

(** What can happen to the page.  A number field hands over
    [Number(event.target.value)], a number ([0] for an empty field). *)
Inductive event :=
| SelectMode (value : Sheet.Mode)
| TypeImagePath (value : string)
| TypeFrameSize (value : Z)
| TypeSheetScale (value : R)
| TypeFrameIndex (value : Z)
| TypeTileWidth (value : R)
| TypeTileHeight (value : R)
| CheckFitFlatTile (checked : bool)
| CheckUniformCuboid (checked : bool)
| TypeRows (value : Z)
| TypeCols (value : Z)
| ResetDefaults
| LoadStarts
| LoadSettles (loaded : option Sheet.Texture).

(** One event.  Selecting a mode runs [onChange] and then, when the mode
    did change, the effect on [mode].  The load effect is split in its
    start, which clears, and its end, [Sheet.load_effect]; both are let
    happen at any time, which covers every order the browser can produce.
    [None]: the page hangs in the loops of the load effect. *)
Definition step (s : FloorLab) (e : event) : option FloorLab :=
  match e with
  | SelectMode value =>
      let s' := select_onChange value s in
      Some (if mode_eqb value (Sheet.mode (core s)) then s' else mode_effect s')
  | TypeImagePath value => Some (setImagePath (fun _ => value) s)
  | TypeFrameSize value => Some (setFrameSize (fun _ => or_Z value 1) s)
  | TypeSheetScale value => Some (setSheetScale (fun _ => or_R value 1) s)
  | TypeFrameIndex value => Some (setFrameIndex (fun _ => or_Z value 0) s)
  | TypeTileWidth value => Some (setTileWidth (or_R value 1) s)
  | TypeTileHeight value => Some (setTileHeight (or_R value 1) s)
  | CheckFitFlatTile checked => Some (setFitFlatTile checked s)
  | CheckUniformCuboid checked => Some (setUniformCuboid checked s)
  | TypeRows value => Some (setRows (or_Z value 1) s)
  | TypeCols value => Some (setCols (or_Z value 1) s)
  | ResetDefaults => Some (reset_onClick s)
  | LoadStarts =>
      Some (setCore
              (fun st =>
                 Sheet.setSheetInfo None
                   (Sheet.setTextures [] (Sheet.setError None st))) s)
  | LoadSettles loaded =>
      match Sheet.load_effect loaded (core s) with
      | Some st' => Some (setCore (fun _ => st') s)
      | None => None
      end
  end.

Fixpoint run (s : FloorLab) (es : list event) : option FloorLab :=
  match es with
  | [] => Some s
  | e :: es' =>
      match step s e with
      | Some s' => run s' es'
      | None => None
      end
  end.

(** What every event keeps. *)
Record invariant (s : FloorLab) : Prop :=
  { frameSize_nonzero : Sheet.frameSize (core s) <> 0%Z;
    sheetScale_nonzero : sheetScale s <> 0;
    tile_nonzero : tileWidth s <> 0 /\ tileHeight s <> 0;
    grid_nonzero : rows s <> 0%Z /\ cols s <> 0%Z;
    error_hides :
      Sheet.error (core s) <> None ->
      Sheet.textures (core s) = [] /\ Sheet.sheetInfo (core s) = None;
    info_counts :
      forall info, Sheet.sheetInfo (core s) = Some info ->
        exists c r,
          Sheet.info_cols info = Sheet.Fin c
          /\ Sheet.info_rows info = Sheet.Fin r
          /\ List.length (Sheet.textures (core s))
             = (Z.to_nat r * Z.to_nat c)%nat }.

(** *** Rendering *)

Definition activeTexture (s : FloorLab) : Sheet.nullable Sheet.Texture :=
  Sheet.activeTexture (Sheet.textures (core s)) (Sheet.frameIndex (core s))
    (Sheet.mode (core s)).

Definition tileWidthPx (s : FloorLab) : R :=
  Iso.tileWidthPx (Sheet.mode (core s)) (IZR (Sheet.frameSize (core s)))
    (sheetScale s) (tileWidth s).

Definition tileHeightPx (s : FloorLab) : R :=
  Iso.tileHeightPx (Sheet.mode (core s)) (IZR (Sheet.frameSize (core s)))
    (sheetScale s) (tileHeight s).

(** The [let]s of the render: scale, anchor and base offset by mode. *)
Record Layout :=
  { scaleX : R; scaleY : R; anchor : R * R; baseYOffset : R }.

Definition layout (s : FloorLab) : Layout :=
  match Sheet.mode (core s) with
  | Sheet.sheet =>
      {| scaleX := sheetScale s; scaleY := sheetScale s;
         anchor := (0, 0); baseYOffset := 0 |}
  | Sheet.tile =>
      match fitFlatTile s, activeTexture s with
      | true, Sheet.value t =>
          {| scaleX := tileWidth s / IZR (Sheet.width t);
             scaleY := tileHeight s / IZR (Sheet.height t);
             anchor := (0.5, 0.5); baseYOffset := 0 |}
      | _, _ =>
          {| scaleX := 1; scaleY := 1; anchor := (0.5, 0.5);
             baseYOffset := 0 |}
      end
  | Sheet.cuboid =>
      match uniformCuboid s, activeTexture s with
      | true, Sheet.value t =>
          let uniform := tileWidth s / IZR (Sheet.width t) in
          {| scaleX := uniform; scaleY := uniform; anchor := (0.5, 1);
             baseYOffset := tileHeightPx s / 2 |}
      | _, _ =>
          {| scaleX := 1; scaleY := 1; anchor := (0.5, 1);
             baseYOffset := tileHeightPx s / 2 |}
      end
  end.

Definition scaledWidth (s : FloorLab) : R :=
  match activeTexture s with
  | Sheet.value t => IZR (Sheet.width t) * scaleX (layout s)
  | _ => 0
  end.

Definition scaledHeight (s : FloorLab) : R :=
  match activeTexture s with
  | Sheet.value t => IZR (Sheet.height t) * scaleY (layout s)
  | _ => 0
  end.

(** One [pixiSprite]. *)
Record Sprite :=
  { key : Z * Z;
    texture : Sheet.Texture;
    sprite_x : R;
    sprite_y : R;
    sprite_anchor : R * R;
    sprite_scale : R * R;
    zIndex : option R }.

Definition sprite (s : FloorLab) (viewport_width viewport_height : R)
    (t : Sheet.Texture) (cell : Grid.coord) : Sprite :=
  let centerX := viewport_width / 2 in
  let centerY := viewport_height / 3 in
  let '(cx, cy) :=
    Iso.isoPosition (IZR (Grid.col cell)) (IZR (Grid.row cell))
      (tileWidthPx s) (tileHeightPx s) in
  let x := cx + centerX in
  let y := cy + centerY in
  let '(x, y) :=
    match Sheet.mode (core s) with
    | Sheet.sheet => (x - scaledWidth s / 2, y - scaledHeight s / 2)
    | Sheet.cuboid => (x, y + baseYOffset (layout s))
    | Sheet.tile => (x, y)
    end in
  {| key := (Grid.row cell, Grid.col cell);
     texture := t;
     sprite_x := x;
     sprite_y := y;
     sprite_anchor := anchor (layout s);
     sprite_scale := (scaleX (layout s), scaleY (layout s));
     zIndex := match Sheet.mode (core s) with
               | Sheet.cuboid => Some y
               | _ => None
               end |}.

(** The sprites of the page: none without an active texture. *)
Definition render (s : FloorLab) (viewport_width viewport_height : R)
  : list Sprite :=
  match activeTexture s with
  | Sheet.value t =>
      map (sprite s viewport_width viewport_height t)
        (Grid.grid (rows s) (cols s))
  | _ => []
  end.

(** The pixels a frame rectangle holds. *)
Definition holds (r : Sheet.Rectangle) (px py : Z) : Prop :=
  (Sheet.rect_x r <= px < Sheet.rect_x r + Sheet.rect_width r
   /\ Sheet.rect_y r <= py < Sheet.rect_y r + Sheet.rect_height r)%Z.

End Lab.

(** ** The fixed floors: FloorOnly and BlocksFloor *)

Module Floor.
Local Open Scope R_scope.

(** FloorOnly: position and the two scales of a tile. *)
Definition FloorOnly_position (col row centerX centerY : R) : R * R :=
  (centerX + (col - row) * (Iso.TILE_W / 2),
   centerY + (col + row) * (Iso.TILE_H / 2)).

Definition FloorOnly_scale (texture : Sheet.Texture) : R * R :=
  (Iso.TILE_W / IZR (Sheet.width texture),
   Iso.TILE_H / IZR (Sheet.height texture)).

(** BlocksFloor: where a block is seated and its uniform scale; the
    shadow shares [x] and [yBase]. *)
Definition yBase (col row centerX centerY : R) : R :=
  snd (Iso.iso col row centerX centerY) + Iso.TILE_H / 2.

Definition BlocksFloor_scale (blockTex : Sheet.Texture) : R :=
  Iso.TILE_W / IZR (Sheet.width blockTex).

End Floor.

(** ** GameRoom: where a tile is drawn *)

Module Room.
Local Open Scope R_scope.

(** The [x] and [y] of the sprite of a GrassBlock. *)
Definition sprite_position (g : Anim.GrassBlock) (gridY viewportW viewportH : R)
  : R * R :=
  let '(isoX, isoY) := Iso.screenToIsometric (Anim.x g) gridY in
  (isoX + viewportW / 2, isoY + viewportH / 4 + Anim.elevation g).

(** The ticks among the events a tile goes through. *)
Definition ticks (es : list Anim.event) : nat :=
  length
    (filter (fun e => match e with Anim.frame => true | _ => false end) es).

(** Two tiles of a room: one clock each, in step. *)
Definition in_step (g1 g2 : Anim.GrassBlock) : Prop :=
  Anim.timeRef g1 = Anim.timeRef g2 /\ Anim.animateRef g1 = Anim.animateRef g2.

(** The elevation a tile can show: at rest, or on the wave. *)
Definition on_wave (g : Anim.GrassBlock) : Prop :=
  Anim.elevation g = 0
  \/ Anim.elevation g = 16 * cos (Anim.timeRef g - Anim.x g).

End Room.

(** ** Facts about the loops *)

Section LoopFacts.
Variable A : Type.

Lemma for_loop_push (f : Z -> list A) (n : nat) (i : Z) (acc : list A) :
  for_loop n i (fun k l => l ++ f k) acc
  = acc ++ flat_map f (map (fun k => i + Z.of_nat k)%Z (seq 0 n)).
Proof.
  revert i acc; induction n as [|n IH]; intros i acc; cbn [for_loop].
  - cbn. now rewrite app_nil_r.
  - rewrite IH. cbn [seq map flat_map].
    rewrite <- app_assoc, Z.add_0_r. do 3 f_equal.
    rewrite <- seq_shift, map_map.
    apply map_ext; intros k; lia.
Qed.

Lemma for_upto_push (f : Z -> list A) (bound : Z) (acc : list A) :
  for_upto bound (fun k l => l ++ f k) acc
  = acc ++ flat_map f (counters (Z.to_nat bound)).
Proof.
  unfold for_upto, counters. rewrite for_loop_push.
  do 2 f_equal.
Qed.

Lemma for_loop_ext (n : nat) :
  forall (St : Type) (b1 b2 : Z -> St -> St) i st,
    (forall k s, b1 k s = b2 k s) ->
    for_loop n i b1 st = for_loop n i b2 st.
Proof.
  induction n as [|n IH]; intros St b1 b2 i st H; cbn; [reflexivity|].
  rewrite H. now apply IH.
Qed.

Lemma flat_map_single (B : Type) (g : B -> A) (l : list B) :
  flat_map (fun b => [g b]) l = map g l.
Proof. induction l as [|b l IH]; cbn; congruence. Qed.

(** A two-level pushing loop builds the row-major array. *)
Lemma nested_push (outer inner : Z) (f : Z -> Z -> A) :
  for_upto outer
    (fun o acc => for_upto inner (fun i acc => acc ++ [f o i]) acc) []
  = row_major outer inner f.
Proof.
  unfold row_major.
  transitivity
    (for_upto outer
       (fun o acc => acc ++ map (f o) (counters (Z.to_nat inner))) []).
  - unfold for_upto at 1 3. apply for_loop_ext; intros o acc.
    rewrite (for_upto_push (fun i => [f o i])).
    now rewrite flat_map_single.
  - now rewrite for_upto_push.
Qed.

Lemma counters_length n : length (counters n) = n.
Proof. unfold counters. now rewrite length_map, length_seq. Qed.

Lemma counters_nth n i :
  (i < n)%nat -> nth_error (counters n) i = Some (Z.of_nat i).
Proof.
  intros H. unfold counters.
  rewrite nth_error_map, nth_error_seq.
  destruct (Nat.ltb_spec i n); [reflexivity | lia].
Qed.

Lemma counters_In n k : In k (counters n) <-> (0 <= k < Z.of_nat n)%Z.
Proof.
  unfold counters. rewrite in_map_iff. split.
  - intros [i [<- Hi]]. apply in_seq in Hi. lia.
  - intros Hk. exists (Z.to_nat k). split; [lia|]. apply in_seq. lia.
Qed.

Lemma flat_map_chunks_length (B : Type) (g : B -> list A) (w : nat) (l : list B) :
  (forall b, length (g b) = w) ->
  length (flat_map g l) = (length l * w)%nat.
Proof.
  intros Hg. induction l as [|b l IH]; cbn; [reflexivity|].
  now rewrite length_app, Hg, IH.
Qed.

Lemma flat_map_chunks_nth (B : Type) (g : B -> list A) (w : nat) (l : list B) :
  (forall b, length (g b) = w) ->
  forall i j b,
    nth_error l i = Some b -> (j < w)%nat ->
    nth_error (flat_map g l) (i * w + j) = nth_error (g b) j.
Proof.
  intros Hg. induction l as [|b0 l IH]; intros i j b Hi Hj.
  - now destruct i.
  - destruct i as [|i]; cbn in Hi |- *.
    + injection Hi as ->. rewrite nth_error_app1; [reflexivity | rewrite Hg; lia].
    + rewrite nth_error_app2 by (rewrite Hg; lia).
      rewrite Hg. replace (w + i * w + j - w)%nat with (i * w + j)%nat by lia.
      now apply IH.
Qed.

Lemma row_major_length (outer inner : Z) (f : Z -> Z -> A) :
  length (row_major outer inner f) = (Z.to_nat outer * Z.to_nat inner)%nat.
Proof.
  unfold row_major.
  rewrite flat_map_chunks_length with (w := Z.to_nat inner).
  - now rewrite counters_length.
  - intros b. now rewrite length_map, counters_length.
Qed.

Lemma row_major_nth (outer inner : Z) (f : Z -> Z -> A) (o i : Z) :
  (0 <= o < outer)%Z -> (0 <= i < inner)%Z ->
  nth_error (row_major outer inner f) (Z.to_nat (o * inner + i)) = Some (f o i).
Proof.
  intros Ho Hi. unfold row_major.
  replace (Z.to_nat (o * inner + i))
    with (Z.to_nat o * Z.to_nat inner + Z.to_nat i)%nat by nia.
  rewrite flat_map_chunks_nth
    with (w := Z.to_nat inner) (b := o).
  - rewrite nth_error_map, counters_nth by lia. cbn. f_equal. f_equal. lia.
  - intros b. now rewrite length_map, counters_length.
  - rewrite counters_nth by lia. f_equal. lia.
  - lia.
Qed.

Lemma row_major_In (outer inner : Z) (f : Z -> Z -> A) (a : A) :
  In a (row_major outer inner f) <->
  exists o i, (0 <= o < outer)%Z /\ (0 <= i < inner)%Z /\ a = f o i.
Proof.
  unfold row_major. rewrite in_flat_map. split.
  - intros [o [Ho Ha]]. apply in_map_iff in Ha as [i [<- Hi]].
    apply counters_In in Ho, Hi. exists o, i. repeat split; lia.
  - intros [o [i [Ho [Hi ->]]]]. exists o. split.
    + apply counters_In. lia.
    + apply in_map. apply counters_In. lia.
Qed.
End LoopFacts.

(** ** Grid enumeration: the loops build the row-major sequence *)

Lemma grid_row_major (rows cols : Z) :
  Grid.grid rows cols
  = row_major rows cols (fun r c => {| Grid.row := r; Grid.col := c |}).
Proof. unfold Grid.grid. apply nested_push. Qed.

Lemma grid_GameRoom_row_major :
  Grid.grid_GameRoom
  = row_major 16 16 (fun i j => {| Grid.x := i; Grid.y := j |}).
Proof. unfold Grid.grid_GameRoom. apply nested_push. Qed.

Lemma row_major_empty (A : Type) (outer inner : Z) (f : Z -> Z -> A) :
  (outer <= 0 \/ inner <= 0)%Z -> row_major outer inner f = [].
Proof.
  intros H. apply length_zero_iff_nil. rewrite row_major_length.
  destruct H; [replace (Z.to_nat outer) with 0%nat by lia
              | replace (Z.to_nat inner) with 0%nat by lia]; lia.
Qed.

(** C6.  For non-negative [rows] and [cols] the grid of FloorLab has
    exactly [rows * cols] entries, the entry at index [r * cols + c] being
    [(r, c)] for every [r] in [0, rows) and [c] in [0, cols): row-major
    order with the column varying fastest.  A zero [rows] or [cols] gives
    the empty sequence, not an error.  At 16 by 16 there are 256 entries,
    the first [(0, 0)] and the last [(15, 15)], in the grid of FloorLab
    and in the one GameRoom builds. *)
Theorem grid_enumerates_row_major :
  forall rows cols : Z,
    (0 <= rows)%Z -> (0 <= cols)%Z ->
    length (Grid.grid rows cols) = Z.to_nat (rows * cols)
    /\ (forall r c : Z,
           (0 <= r < rows)%Z -> (0 <= c < cols)%Z ->
           nth_error (Grid.grid rows cols) (Z.to_nat (r * cols + c))
           = Some {| Grid.row := r; Grid.col := c |})
    /\ (rows = 0%Z \/ cols = 0%Z -> Grid.grid rows cols = [])
    /\ (length (Grid.grid 16 16) = 256%nat
        /\ hd_error (Grid.grid 16 16) = Some {| Grid.row := 0; Grid.col := 0 |}
        /\ nth_error (Grid.grid 16 16) 255
           = Some {| Grid.row := 15; Grid.col := 15 |})
    /\ (length Grid.grid_GameRoom = 256%nat
        /\ hd_error Grid.grid_GameRoom = Some {| Grid.x := 0; Grid.y := 0 |}
        /\ nth_error Grid.grid_GameRoom 255
           = Some {| Grid.x := 15; Grid.y := 15 |}).
Proof.
  intros rows cols Hr Hc. rewrite grid_row_major.
  split; [|split; [|split; [|split]]].
  - rewrite row_major_length. lia.
  - intros r c Hrr Hcc. now apply row_major_nth.
  - intros H. apply row_major_empty. lia.
  - repeat split; vm_compute; reflexivity.
  - repeat split; vm_compute; reflexivity.
Qed.

Lemma grid_enumerates_row_major_witness :
  length (Grid.grid 2 3) = 6%nat
  /\ nth_error (Grid.grid 2 3) 5 = Some {| Grid.row := 1; Grid.col := 2 |}
  /\ Grid.grid 0 3 = [].
Proof.
  destruct (@grid_enumerates_row_major 2 3) as [Hlen [Hnth _]]; [lia | lia |].
  destruct (@grid_enumerates_row_major 0 3) as [_ [_ [Hnil _]]]; [lia | lia |].
  split; [exact Hlen | split].
  - apply (Hnth 1%Z 2%Z); lia.
  - apply Hnil. left. reflexivity.
Defined.

(** ** Sheet slicing *)

Section Slicing.
Local Open Scope Z_scope.
Import Sheet.

Lemma frames_finite src frameSize rows cols :
  frames src frameSize (Fin rows) (Fin cols)
  = Some (row_major rows cols (frame_at src frameSize)).
Proof. cbn [frames]. f_equal. apply nested_push. Qed.

Lemma floor_div_nonzero a b : b <> 0 -> floor_div a b = Fin (a / b).
Proof.
  intros Hb. unfold floor_div.
  destruct (Z.eqb_spec b 0); [contradiction | reflexivity].
Qed.

Lemma falsy_Fin z : falsy (Fin z) = (z =? 0).
Proof. now destruct z. Qed.

(** With a non-zero frame size the effect either throws, when a count is
    zero, or returns the row-major frame list. *)
Lemma slice_nonzero (base : Texture) (frameSize : Z) :
  frameSize <> 0 ->
  slice base frameSize
  = if (width base / frameSize =? 0) || (height base / frameSize =? 0)
    then Throws (NotEvenlyDivide frameSize (width base) (height base))
    else Returns
           (row_major (height base / frameSize) (width base / frameSize)
              (frame_at (source base) frameSize),
            {| info_cols := Fin (width base / frameSize);
               info_rows := Fin (height base / frameSize);
               info_width := width base; info_height := height base |}).
Proof.
  intros Hf. unfold slice.
  rewrite !floor_div_nonzero, !falsy_Fin, frames_finite by assumption.
  reflexivity.
Qed.
End Slicing.

(** C5.  When the frame size is positive and divides the positive width
    and height of the sheet, the effect returns [width / frameSize] columns
    by [height / frameSize] rows of frames: exactly their product many, the
    frame of index [row * cols + col] at offset
    [(col * frameSize, row * frameSize)] with size [(frameSize, frameSize)].
    A 180 by 180 sheet cut at 18 gives 100 frames, frame 0 at [(0, 0)] and
    frame 99 at [(162, 162)]. *)
Theorem slice_divisible_row_major :
  forall (base : Sheet.Texture) (frameSize : Z),
    (0 < frameSize)%Z ->
    (0 < Sheet.width base)%Z -> (0 < Sheet.height base)%Z ->
    (Sheet.width base mod frameSize = 0)%Z ->
    (Sheet.height base mod frameSize = 0)%Z ->
    let cols := (Sheet.width base / frameSize)%Z in
    let rows := (Sheet.height base / frameSize)%Z in
    exists list info,
      Sheet.slice base frameSize = Sheet.Returns (list, info)
      /\ Sheet.info_cols info = Sheet.Fin cols
      /\ Sheet.info_rows info = Sheet.Fin rows
      /\ length list = Z.to_nat (cols * rows)
      /\ (forall row col : Z,
             (0 <= row < rows)%Z -> (0 <= col < cols)%Z ->
             nth_error list (Z.to_nat (row * cols + col))
             = Some (Sheet.frame_at (Sheet.source base) frameSize row col))
      /\ (Sheet.width base = 180%Z -> Sheet.height base = 180%Z ->
          frameSize = 18%Z ->
          length list = 100%nat
          /\ nth_error list 0
             = Some {| Sheet.source := Sheet.source base;
                       Sheet.frame := {| Sheet.rect_x := 0; Sheet.rect_y := 0;
                                         Sheet.rect_width := 18;
                                         Sheet.rect_height := 18 |} |}
          /\ nth_error list 99
             = Some {| Sheet.source := Sheet.source base;
                       Sheet.frame := {| Sheet.rect_x := 162; Sheet.rect_y := 162;
                                         Sheet.rect_width := 18;
                                         Sheet.rect_height := 18 |} |}).
Proof.
  intros base frameSize Hf Hw Hh Hwm Hhm cols rows.
  assert (Hcols : (0 < cols)%Z).
  { subst cols. apply Z.div_str_pos. split; [lia|].
    apply Z.mod_divide in Hwm; [|lia]. apply Z.divide_pos_le in Hwm; lia. }
  assert (Hrows : (0 < rows)%Z).
  { subst rows. apply Z.div_str_pos. split; [lia|].
    apply Z.mod_divide in Hhm; [|lia]. apply Z.divide_pos_le in Hhm; lia. }
  rewrite slice_nonzero by lia. fold cols rows.
  destruct (Z.eqb_spec cols 0) as [E|_]; [lia|].
  destruct (Z.eqb_spec rows 0) as [E|_]; [lia|].
  cbn [orb]. eexists _, _. split; [reflexivity|].
  split; [reflexivity|]. split; [reflexivity|].
  split; [rewrite row_major_length; lia|].
  split; [intros row col Hr Hc; now apply row_major_nth|].
  intros Ew Eh Ef. subst cols rows. rewrite Ew, Eh, Ef.
  change (180 / 18)%Z with 10%Z.
  split; [rewrite row_major_length; reflexivity|].
  split.
  - apply (@row_major_nth _ 10 10 (Sheet.frame_at (Sheet.source base) 18) 0 0); lia.
  - apply (@row_major_nth _ 10 10 (Sheet.frame_at (Sheet.source base) 18) 9 9); lia.
Qed.

Lemma slice_divisible_row_major_witness :
  exists list info,
    Sheet.slice (Sheet.whole 0 180 180) 18 = Sheet.Returns (list, info)
    /\ length list = 100%nat
    /\ nth_error list 99 = Some (Sheet.frame_at 0 18 9 9).
Proof.
  destruct (@slice_divisible_row_major (Sheet.whole 0 180 180) 18)
    as [list [info [Hs [_ [_ [_ [_ H180]]]]]]];
    [reflexivity | reflexivity | reflexivity | reflexivity | reflexivity |].
  exists list, info.
  destruct H180 as [Hlen [_ H99]]; [reflexivity | reflexivity | reflexivity |].
  split; [exact Hs | split; [exact Hlen | exact H99]].
Defined.

(** C9.  With a positive frame size the effect never fails to end, and
    every frame it returns lies inside the sheet:
    [0 <= x], [0 <= y], [x + frameSize <= width] and
    [y + frameSize <= height], whether or not the frame size divides the
    sheet, since the counts are floors.  It throws only when the sheet is
    narrower or lower than one frame, and returns at least one frame
    otherwise. *)
Theorem slice_frames_inside_sheet :
  forall (base : Sheet.Texture) (frameSize : Z),
    (0 < frameSize)%Z ->
    match Sheet.slice base frameSize with
    | Sheet.Returns (list, _) =>
        Forall (fun t => Sheet.inside (Sheet.width base) (Sheet.height base)
                           (Sheet.frame t)) list
        /\ length list
           = (Z.to_nat (Sheet.height base / frameSize)
              * Z.to_nat (Sheet.width base / frameSize))%nat
        /\ ((frameSize <= Sheet.width base)%Z ->
            (frameSize <= Sheet.height base)%Z -> list <> [])
    | Sheet.Throws _ =>
        (0 <= Sheet.width base < frameSize)%Z
        \/ (0 <= Sheet.height base < frameSize)%Z
    | Sheet.Diverges => False
    end.
Proof.
  intros base frameSize Hf. rewrite slice_nonzero by lia.
  set (w := Sheet.width base). set (h := Sheet.height base).
  destruct (Z.eqb_spec (w / frameSize) 0) as [Ec|Ec]; cbn [orb].
  - left. apply Z.div_small_iff in Ec; lia.
  - destruct (Z.eqb_spec (h / frameSize) 0) as [Er|Er].
    + right. apply Z.div_small_iff in Er; lia.
    + split; [|split].
      * apply Forall_forall. intros t Ht.
        apply row_major_In in Ht as [y [x [Hy [Hx ->]]]].
        unfold Sheet.inside, Sheet.frame_at; cbn.
        pose proof (Z.mul_div_le w frameSize Hf).
        pose proof (Z.mul_div_le h frameSize Hf).
        repeat split; nia.
      * apply row_major_length.
      * intros Hw Hh Hnil.
        apply (f_equal (@length _)) in Hnil. rewrite row_major_length in Hnil.
        assert (0 < w / frameSize)%Z by (apply Z.div_str_pos; lia).
        assert (0 < h / frameSize)%Z by (apply Z.div_str_pos; lia).
        cbn in Hnil. nia.
Qed.

Lemma slice_frames_inside_sheet_witness :
  exists list info,
    Sheet.slice (Sheet.whole 0 180 100) 18 = Sheet.Returns (list, info)
    /\ Forall (fun t => Sheet.inside 180 100 (Sheet.frame t)) list
    /\ length list = 50%nat.
Proof.
  pose proof (@slice_frames_inside_sheet (Sheet.whole 0 180 100) 18 eq_refl) as H.
  destruct (Sheet.slice (Sheet.whole 0 180 100) 18) as [[list info]| |] eqn:E;
    [| vm_compute in E; discriminate E | contradiction].
  exists list, info. destruct H as [Hin [Hlen _]].
  split; [reflexivity | split; [exact Hin | exact Hlen]].
Defined.

(** The guard of the effect looks at the counts only: for a sheet of
    non-negative size and a positive frame size it throws exactly when a
    whole frame does not fit across or down the sheet. *)
Lemma slice_throws_iff (base : Sheet.Texture) (frameSize : Z) :
  (0 < frameSize)%Z ->
  (0 <= Sheet.width base)%Z -> (0 <= Sheet.height base)%Z ->
  (exists e, Sheet.slice base frameSize = Sheet.Throws e)
  <-> (Sheet.width base < frameSize \/ Sheet.height base < frameSize)%Z.
Proof.
  intros Hf Hw Hh. rewrite slice_nonzero by lia.
  destruct (Z.eqb_spec (Sheet.width base / frameSize) 0) as [Ec|Ec]; cbn [orb].
  - apply Z.div_small_iff in Ec; [|lia]. split; [lia | eauto].
  - destruct (Z.eqb_spec (Sheet.height base / frameSize) 0) as [Er|Er].
    + apply Z.div_small_iff in Er; [|lia]. split; [lia | eauto].
    + split.
      * intros [e He]. discriminate He.
      * intros H. exfalso.
        destruct H as [H|H]; [apply Ec | apply Er]; apply Z.div_small; lia.
Qed.

(** A zero frame size is the one input on which the loops have no end:
    both counts are [Infinity].  (The frame-size field of the page never
    holds 0: it is set through [Number(value) || 1].) *)
Lemma slice_zero_frame_size (src : Sheet.Source) :
  Sheet.slice (Sheet.whole src 180 180) 0 = Sheet.Diverges
  /\ Sheet.slice (Sheet.whole src 0 0) 0
     = Sheet.Throws (Sheet.NotEvenlyDivide 0 0 0).
Proof. split; reflexivity. Qed.

(** When the effect throws, the page is left without any texture and with
    the error set. *)
Lemma load_effect_throw_leaves_no_texture (base : Sheet.Texture) (st : Sheet.State) e :
  Sheet.mode st = Sheet.sheet ->
  Sheet.slice base (Sheet.frameSize st) = Sheet.Throws e ->
  exists st',
    Sheet.load_effect (Some base) st = Some st'
    /\ Sheet.textures st' = [] /\ Sheet.error st' = Some e.
Proof.
  intros Hm Hs. unfold Sheet.load_effect.
  cbn [Sheet.mode Sheet.frameSize Sheet.setSheetInfo Sheet.setTextures
       Sheet.setError].
  rewrite Hm, Hs.
  eexists. split; [reflexivity|]. split; reflexivity.
Qed.

(** C1.  The effect at a 180 by 100 sheet and frame size 18: although 18
    does not divide 100 (100 mod 18 = 10), nothing is thrown; the effect
    returns 10 columns by 5 rows, 50 frames, the last one ending at
    [y = 90], and the page shows them without an error. *)
Theorem slice_180_100_18_returns_frames :
  forall src : Sheet.Source,
    (100 mod 18 = 10)%Z
    /\ exists list info,
         Sheet.slice (Sheet.whole src 180 100) 18 = Sheet.Returns (list, info)
         /\ Sheet.info_cols info = Sheet.Fin 10
         /\ Sheet.info_rows info = Sheet.Fin 5
         /\ length list = 50%nat
         /\ nth_error list 49 = Some (Sheet.frame_at src 18 4 9)
         /\ exists st',
              Sheet.load_effect (Some (Sheet.whole src 180 100)) Sheet.initial
              = Some st'
              /\ Sheet.textures st' = list /\ Sheet.error st' = None.
Proof.
  intros src. split; [reflexivity|].
  assert (Hs : Sheet.slice (Sheet.whole src 180 100) 18
               = Sheet.Returns
                   (row_major 5 10 (Sheet.frame_at src 18),
                    {| Sheet.info_cols := Sheet.Fin 10;
                       Sheet.info_rows := Sheet.Fin 5;
                       Sheet.info_width := 180; Sheet.info_height := 100 |}))
    by (rewrite slice_nonzero by lia; reflexivity).
  eexists _, _. split; [exact Hs|].
  split; [reflexivity|]. split; [reflexivity|].
  split; [now rewrite row_major_length|].
  split.
  - apply (@row_major_nth _ 5 10 (Sheet.frame_at src 18) 4 9); lia.
  - unfold Sheet.load_effect.
    cbn [Sheet.mode Sheet.frameSize Sheet.initial Sheet.setSheetInfo
         Sheet.setTextures Sheet.setError].
    rewrite Hs. eexists. split; [reflexivity|]. split; reflexivity.
Qed.

(** ** Frame selection *)

Lemma at_index_in_range (A : Type) (arr : list A) (i : Z) :
  (0 <= i < Z.of_nat (length arr))%Z ->
  exists a, Sheet.at_index arr i = Sheet.value a
            /\ nth_error arr (Z.to_nat i) = Some a.
Proof.
  intros Hi. unfold Sheet.at_index.
  destruct (Z.ltb_spec i 0); [lia|].
  destruct (nth_error arr (Z.to_nat i)) as [a|] eqn:E.
  - now exists a.
  - apply nth_error_None in E. lia.
Qed.

(** C10.  The frame selection never reads outside of the texture array.
    With no texture it returns [null].  With [n > 0] textures it returns a
    texture of the array: in sheet mode the one at index
    [max 0 (min frameIndex (n - 1))], which lies in [0, n), for every
    integer [frameIndex]; in the other modes the one at index 0. *)
Theorem activeTexture_never_out_of_range :
  forall (textures : list Sheet.Texture) (frameIndex : Z) (mode : Sheet.Mode),
    let n := Z.of_nat (length textures) in
    let index := Z.max 0 (Z.min frameIndex (n - 1)) in
    (textures = [] ->
     Sheet.activeTexture textures frameIndex mode = Sheet.null)
    /\ (textures <> [] ->
        (0 <= index < n)%Z
        /\ exists t,
             Sheet.activeTexture textures frameIndex mode = Sheet.value t
             /\ In t textures
             /\ (mode = Sheet.sheet ->
                 nth_error textures (Z.to_nat index) = Some t)
             /\ (mode <> Sheet.sheet -> nth_error textures 0 = Some t)).
Proof.
  intros textures frameIndex mode n index. split.
  - intros ->. reflexivity.
  - intros Hne.
    assert (Hn : (0 < n)%Z).
    { subst n. destruct textures; [contradiction | cbn; lia]. }
    assert (Hidx : (0 <= index < n)%Z) by (subst index; lia).
    split; [exact Hidx|].
    unfold Sheet.activeTexture.
    destruct (Nat.eqb_spec (length textures) 0) as [E|_]; [subst n; lia|].
    destruct mode.
    + destruct (@at_index_in_range _ textures index Hidx) as [t [Ht Hnth]].
      exists t. fold n. fold index. rewrite Ht.
      split; [reflexivity|]. split; [eapply nth_error_In; eassumption|].
      split; [intros _; exact Hnth | intros H; now contradiction H].
    + destruct (@at_index_in_range _ textures 0%Z) as [t [Ht Hnth]]; [lia|].
      exists t. rewrite Ht.
      split; [reflexivity|]. split; [eapply nth_error_In; eassumption|].
      split; [discriminate | intros _; exact Hnth].
    + destruct (@at_index_in_range _ textures 0%Z) as [t [Ht Hnth]]; [lia|].
      exists t. rewrite Ht.
      split; [reflexivity|]. split; [eapply nth_error_In; eassumption|].
      split; [discriminate | intros _; exact Hnth].
Qed.

Lemma activeTexture_never_out_of_range_witness :
  Sheet.activeTexture [] 7 Sheet.sheet = Sheet.null
  /\ exists t,
       Sheet.activeTexture
         [Sheet.frame_at 0 18 0 0; Sheet.frame_at 0 18 0 1] 7 Sheet.sheet
       = Sheet.value t
       /\ nth_error [Sheet.frame_at 0 18 0 0; Sheet.frame_at 0 18 0 1] 1 = Some t.
Proof.
  split.
  - apply (@activeTexture_never_out_of_range [] 7 Sheet.sheet). reflexivity.
  - destruct (@activeTexture_never_out_of_range
                [Sheet.frame_at 0 18 0 0; Sheet.frame_at 0 18 0 1] 7 Sheet.sheet)
      as [_ H].
    destruct H as [_ [t [Ht [_ [Hs _]]]]]; [discriminate|].
    exists t. split; [exact Ht | exact (Hs eq_refl)].
Defined.

(** ** Isometric projection *)

Section Projection.
Local Open Scope R_scope.

Lemma pair_eq (a b c d : R) : a = c -> b = d -> (a, b) = (c, d).
Proof. now intros -> ->. Qed.
End Projection.

(** C3.  The direct projection of a grid cell is
    [x = (col - row) * tileWidth / 2] and
    [y = (col + row) * tileHeight / 2], as [isoPosition] of FloorLab
    computes it and, at the 128 by 64 tile and relative to the centre it
    adds, as [iso] of BlocksFloor does.  Stated over the reals; it holds
    for all integers and all tile sizes, so also for the non-negative cells
    and positive sizes of the pages. *)
Theorem isoPosition_direct_form :
  forall (col row : Z) (tileWidth tileHeight centerX centerY : R),
    Iso.isoPosition (IZR col) (IZR row) tileWidth tileHeight
    = ((IZR col - IZR row) * tileWidth / 2,
       (IZR col + IZR row) * tileHeight / 2)%R
    /\ Iso.iso (IZR col) (IZR row) centerX centerY
       = (centerX + (IZR col - IZR row) * 128 / 2,
          centerY + (IZR col + IZR row) * 64 / 2)%R
    /\ Iso.iso (IZR col) (IZR row) 0 0
       = Iso.isoPosition (IZR col) (IZR row) Iso.TILE_W Iso.TILE_H.
Proof.
  intros col row tw th cx cy.
  unfold Iso.isoPosition, Iso.iso, Iso.TILE_W, Iso.TILE_H.
  repeat split; apply pair_eq; lra.
Qed.

(** C4.  For every tile constant [T] and every cell the scaled-axis
    projection [(0.5 X - 0.5 Y, 0.25 X + 0.25 Y)], with [X = col * T] and
    [Y = row * T], is the direct projection at [tileWidth = T] and
    [tileHeight = T / 2].  At the constant of GameRoom (18 * 4 = 72) it is
    the direct projection at 72 by 36, which is also what FloorLab hands to
    [isoPosition] in sheet mode at its default frame size and scale. *)
Theorem scaled_axis_equals_direct :
  forall (T : R) (col row : Z),
    Iso.screenToIsometric_at T (IZR col) (IZR row)
    = Iso.isoPosition (IZR col) (IZR row) T (T / 2)
    /\ Iso.screenToIsometric (IZR col) (IZR row)
       = Iso.isoPosition (IZR col) (IZR row) 72 36
    /\ Iso.screenToIsometric (IZR col) (IZR row)
       = Iso.isoPosition (IZR col) (IZR row)
           (Iso.tileWidthPx Sheet.sheet 18 4 128)
           (Iso.tileHeightPx Sheet.sheet 18 4 64).
Proof.
  intros T col row.
  unfold Iso.screenToIsometric, Iso.screenToIsometric_at, Iso.isoPosition,
    Iso.TILE, Iso.TILE_PX, Iso.SCALE, Iso.tileWidthPx, Iso.tileHeightPx.
  repeat split; apply pair_eq; lra.
Qed.

(** C7.  With a positive tile width and height the direct projection is
    injective on integer cells: two distinct cells have distinct screen
    points. *)
Theorem isoPosition_injective :
  forall (tileWidth tileHeight : R) (col1 row1 col2 row2 : Z),
    (0 < tileWidth)%R -> (0 < tileHeight)%R ->
    (col1, row1) <> (col2, row2) ->
    Iso.isoPosition (IZR col1) (IZR row1) tileWidth tileHeight
    <> Iso.isoPosition (IZR col2) (IZR row2) tileWidth tileHeight.
Proof.
  intros tw th c1 r1 c2 r2 Hw Hh Hne Heq. apply Hne.
  unfold Iso.isoPosition in Heq. injection Heq as Hx Hy.
  assert (Hd : (IZR c1 - IZR r1 = IZR c2 - IZR r2)%R) by nra.
  assert (Hs : (IZR c1 + IZR r1 = IZR c2 + IZR r2)%R) by nra.
  assert (Hc : IZR c1 = IZR c2) by lra.
  assert (Hr : IZR r1 = IZR r2) by lra.
  apply eq_IZR in Hc, Hr. now subst.
Qed.

Lemma isoPosition_injective_witness :
  Iso.isoPosition 0 1 128 64 <> Iso.isoPosition 1 0 128 64.
Proof.
  apply (@isoPosition_injective 128 64 0 1 1 0); [lra | lra | discriminate].
Defined.

(** ** The wave animation *)

Section Animation.
Local Open Scope R_scope.
Import Anim.

Lemma tick_idle g : phase g = Idle -> tick g = g.
Proof.
  unfold phase, tick. now destruct (animateRef g).
Qed.

Lemma tick_running_time g :
  phase g = Running -> timeRef (tick g) = timeRef g + 0.1.
Proof.
  unfold phase, tick. destruct (animateRef g); [reflexivity | discriminate].
Qed.

Lemma tick_phase g : phase (tick g) = phase g.
Proof.
  unfold phase, tick.
  destruct (animateRef g) eqn:E; cbn; rewrite ?E; reflexivity.
Qed.

Lemma mount_rests b col : rests (mount b col).
Proof. unfold rests, mount, animate_effect; cbn. now destruct b. Qed.

Lemma step_rests g e : rests g -> rests (step g e).
Proof.
  unfold rests. intros H. destruct e; cbn [step].
  - discriminate.
  - reflexivity.
  - intros Hi. rewrite tick_phase in Hi. rewrite tick_idle; auto.
Qed.

Lemma run_rests es : forall g, rests g -> rests (run g es).
Proof.
  unfold run. induction es as [|e es IH]; intros g H; cbn [fold_left].
  - exact H.
  - apply IH. now apply step_rests.
Qed.
End Animation.

Lemma run_frames_running (n : nat) :
  forall g : Anim.GrassBlock,
    Anim.phase g = Anim.Running ->
    Anim.phase (Anim.run g (repeat Anim.frame n)) = Anim.Running
    /\ Anim.timeRef (Anim.run g (repeat Anim.frame n))
       = (Anim.timeRef g + INR n * 0.1)%R.
Proof.
  induction n as [|n IH]; intros g Hg.
  - cbn. split; [exact Hg | lra].
  - change (Anim.run g (repeat Anim.frame (S n)))
      with (Anim.run (Anim.tick g) (repeat Anim.frame n)).
    destruct (IH (Anim.tick g)) as [Hp Ht].
    + now rewrite tick_phase.
    + split; [exact Hp|].
      rewrite Ht, tick_running_time, S_INR by exact Hg. lra.
Qed.

Lemma run_frames_idle (n : nat) :
  forall g : Anim.GrassBlock,
    Anim.phase g = Anim.Idle -> Anim.run g (repeat Anim.frame n) = g.
Proof.
  induction n as [|n IH]; intros g Hg; [reflexivity|].
  change (Anim.run g (repeat Anim.frame (S n)))
    with (Anim.run (Anim.tick g) (repeat Anim.frame n)).
  rewrite tick_idle by exact Hg. now apply IH.
Qed.

(** C2, as the page has it.  In every state a tile reaches from its mount
    by enable, disable and tick, the displayed elevation is 0 whenever the
    tile is Idle.  Disabling sets the elevation to 0 and leaves the clock
    [timeRef] as it was; ticks while Idle leave it too; enabling again goes
    on from the value the clock had before the disable. *)
Theorem idle_rests_and_clock_is_kept :
  forall (animate : bool) (col : R) (es : list Anim.event),
    let g := Anim.run (Anim.mount animate col) es in
    (Anim.phase g = Anim.Idle -> Anim.elevation g = 0%R)
    /\ Anim.phase (Anim.step g Anim.disable) = Anim.Idle
    /\ Anim.elevation (Anim.step g Anim.disable) = 0%R
    /\ Anim.timeRef (Anim.step g Anim.disable) = Anim.timeRef g
    /\ (forall n : nat,
           Anim.timeRef
             (Anim.run (Anim.step g Anim.disable) (repeat Anim.frame n))
           = Anim.timeRef g)
    /\ Anim.phase (Anim.step (Anim.step g Anim.disable) Anim.enable)
       = Anim.Running
    /\ Anim.timeRef (Anim.step (Anim.step g Anim.disable) Anim.enable)
       = Anim.timeRef g.
Proof.
  intros animate col es g.
  split; [apply run_rests, mount_rests|].
  repeat split.
  intros n. now rewrite run_frames_idle.
Qed.

Lemma idle_rests_and_clock_is_kept_witness :
  Anim.elevation
    (Anim.run (Anim.mount true 0) [Anim.frame; Anim.disable]) = 0%R.
Proof.
  destruct (@idle_rests_and_clock_is_kept true 0%R [Anim.frame; Anim.disable])
    as [Hrest _].
  apply Hrest. reflexivity.
Defined.

(** C2, as stated, fails.  A tile mounted running, ticked once and then
    disabled is Idle with its clock at 0.1, not 0; enabled again, the
    clock is still 0.1 and the next tick takes it to 0.2. *)
Lemma idle_clock_is_not_reset :
  let g := Anim.run (Anim.mount true 0) [Anim.frame; Anim.disable] in
  Anim.phase g = Anim.Idle
  /\ Anim.timeRef g = 0.1%R
  /\ Anim.timeRef g <> 0%R
  /\ Anim.timeRef (Anim.step g Anim.enable) <> 0%R
  /\ Anim.timeRef (Anim.run g [Anim.enable; Anim.frame]) = 0.2%R.
Proof.
  cbv zeta.
  assert (Ht : Anim.timeRef
                 (Anim.run (Anim.mount true 0) [Anim.frame; Anim.disable])
               = 0.1%R).
  { change (Anim.timeRef (Anim.tick (Anim.mount true 0)) = 0.1%R).
    rewrite tick_running_time by reflexivity.
    change (Anim.timeRef (Anim.mount true 0)) with 0%R. lra. }
  split; [reflexivity|].
  split; [exact Ht|].
  split; [rewrite Ht; lra|].
  split.
  - change (Anim.timeRef
              (Anim.run (Anim.mount true 0) [Anim.frame; Anim.disable]) <> 0%R).
    rewrite Ht; lra.
  - change (Anim.timeRef
              (Anim.tick
                 (Anim.step
                    (Anim.run (Anim.mount true 0) [Anim.frame; Anim.disable])
                    Anim.enable)) = 0.2%R).
    rewrite tick_running_time by reflexivity.
    change (Anim.timeRef
              (Anim.run (Anim.mount true 0) [Anim.frame; Anim.disable])
            + 0.1 = 0.2)%R.
    rewrite Ht. lra.
Qed.

(** C8.  While a tile is Running each tick adds exactly 0.1 to the clock
    and sets the displayed elevation to [16 * cos (clock - x)], with the
    clock as just advanced and [x] the column of the tile; [n] ticks add
    [n * 0.1].  A tile mounted Idle, enabled and ticked 5 times has its
    clock at 0.5.  Over the reals. *)
Theorem tick_advances_clock_and_wave :
  (forall g : Anim.GrassBlock,
      Anim.phase g = Anim.Running ->
      Anim.phase (Anim.tick g) = Anim.Running
      /\ Anim.timeRef (Anim.tick g) = (Anim.timeRef g + 0.1)%R
      /\ Anim.elevation (Anim.tick g)
         = (16 * cos (Anim.timeRef (Anim.tick g) - Anim.x g))%R
      /\ Anim.x (Anim.tick g) = Anim.x g)
  /\ (forall (col : R),
         Anim.phase (Anim.mount false col) = Anim.Idle
         /\ Anim.timeRef (Anim.mount false col) = 0%R
         /\ Anim.timeRef
              (Anim.run (Anim.mount false col)
                 (Anim.enable :: repeat Anim.frame 5))
            = 0.5%R).
Proof.
  split.
  - intros g Hg. split; [now rewrite tick_phase|].
    split; [now apply tick_running_time|].
    unfold Anim.phase in Hg. unfold Anim.tick.
    destruct (Anim.animateRef g); [|discriminate]. cbn. split; reflexivity.
  - intros col. split; [reflexivity|]. split; [reflexivity|].
    change (Anim.run (Anim.mount false col) (Anim.enable :: repeat Anim.frame 5))
      with (Anim.run (Anim.step (Anim.mount false col) Anim.enable)
              (repeat Anim.frame 5)).
    destruct (@run_frames_running 5 (Anim.step (Anim.mount false col) Anim.enable))
      as [_ Ht]; [reflexivity|].
    rewrite Ht.
    change (Anim.timeRef (Anim.step (Anim.mount false col) Anim.enable)) with 0%R.
    simpl INR. lra.
Qed.

Lemma tick_advances_clock_and_wave_witness :
  Anim.timeRef (Anim.tick (Anim.mount true 3))
  = (Anim.timeRef (Anim.mount true 3) + 0.1)%R
  /\ Anim.elevation (Anim.tick (Anim.mount true 3))
     = (16 * cos (Anim.timeRef (Anim.tick (Anim.mount true 3)) - 3))%R.
Proof.
  destruct tick_advances_clock_and_wave as [H _].
  destruct (H (Anim.mount true 3)) as [_ [Ht [He _]]]; [reflexivity|].
  split; [exact Ht | exact He].
Defined.

(** ** More on the row-major arrays *)

Lemma row_major_nth_inv (A : Type) (outer inner : Z) (f : Z -> Z -> A) k a :
  nth_error (row_major outer inner f) k = Some a ->
  exists o i : Z,
    (0 <= o < outer)%Z /\ (0 <= i < inner)%Z
    /\ Z.of_nat k = (o * inner + i)%Z /\ a = f o i.
Proof.
  intros Hk.
  assert (Hlt : (k < length (row_major outer inner f))%nat)
    by (apply nth_error_Some; congruence).
  rewrite row_major_length in Hlt.
  assert (Hin : (0 < inner)%Z) by nia.
  assert (Hout : (0 < outer)%Z) by nia.
  pose proof (Z.div_mod (Z.of_nat k) inner ltac:(lia)) as Hdm.
  pose proof (Z.mod_pos_bound (Z.of_nat k) inner Hin) as Hm.
  assert (Ho : (0 <= Z.of_nat k / inner < outer)%Z).
  { split; [apply Z.div_pos; lia|].
    apply Z.div_lt_upper_bound; [lia|]. nia. }
  exists (Z.of_nat k / inner)%Z, (Z.of_nat k mod inner)%Z.
  split; [exact Ho|]. split; [exact Hm|]. split; [lia|].
  pose proof (@row_major_nth A outer inner f _ _ Ho Hm) as Hn.
  replace (Z.to_nat (Z.of_nat k / inner * inner + Z.of_nat k mod inner))
    with k in Hn by lia.
  congruence.
Qed.

Lemma row_major_NoDup (A : Type) (outer inner : Z) (f : Z -> Z -> A) :
  (forall o1 i1 o2 i2, f o1 i1 = f o2 i2 -> o1 = o2 /\ i1 = i2) ->
  NoDup (row_major outer inner f).
Proof.
  intros Hinj. apply NoDup_nth_error. intros i j Hi Heq.
  destruct (nth_error (row_major outer inner f) i) as [a|] eqn:Ei;
    [|apply nth_error_None in Ei; lia].
  symmetry in Heq.
  apply row_major_nth_inv in Ei as [o1 [i1 [_ [_ [Hk1 ->]]]]].
  apply row_major_nth_inv in Heq as [o2 [i2 [_ [_ [Hk2 Hf]]]]].
  apply Hinj in Hf as [-> ->]. lia.
Qed.

(** ** The grid holds each cell of the rectangle once *)

(** X1.  Whatever integers the row and column fields hold, a cell is in
    the grid exactly when its row is in [0, rows) and its column in
    [0, cols), and no cell is there twice; so a negative count gives the
    empty grid, as a zero one does. *)
Theorem grid_cells_once :
  forall rows cols : Z,
    (forall r c : Z,
        In {| Grid.row := r; Grid.col := c |} (Grid.grid rows cols)
        <-> (0 <= r < rows)%Z /\ (0 <= c < cols)%Z)
    /\ NoDup (Grid.grid rows cols)
    /\ ((rows <= 0)%Z \/ (cols <= 0)%Z -> Grid.grid rows cols = []).
Proof.
  intros rows cols. rewrite grid_row_major. split; [|split].
  - intros r c. rewrite row_major_In. split.
    + intros [o [i [Ho [Hi E]]]]. injection E as -> ->. auto.
    + intros [Hr Hc]. exists r, c. auto.
  - apply row_major_NoDup. intros o1 i1 o2 i2 E. now injection E.
  - apply row_major_empty.
Qed.

Lemma grid_cells_once_witness :
  Grid.grid (-2) 3 = []
  /\ In {| Grid.row := 1; Grid.col := 2 |} (Grid.grid 2 3).
Proof.
  destruct (grid_cells_once (-2) 3) as [_ [_ Hneg]].
  destruct (grid_cells_once 2 3) as [Hin _].
  split; [apply Hneg; left; lia | apply Hin; lia].
Defined.

(** ** The frames partition what they cover *)

Lemma slice_returns_row_major (base : Sheet.Texture) (frameSize : Z) list info :
  frameSize <> 0%Z ->
  Sheet.slice base frameSize = Sheet.Returns (list, info) ->
  list = row_major (Sheet.height base / frameSize) (Sheet.width base / frameSize)
           (Sheet.frame_at (Sheet.source base) frameSize)
  /\ info = {| Sheet.info_cols := Sheet.Fin (Sheet.width base / frameSize);
               Sheet.info_rows := Sheet.Fin (Sheet.height base / frameSize);
               Sheet.info_width := Sheet.width base;
               Sheet.info_height := Sheet.height base |}
  /\ (Sheet.width base / frameSize <> 0)%Z
  /\ (Sheet.height base / frameSize <> 0)%Z.
Proof.
  intros Hf Hs. rewrite slice_nonzero in Hs by exact Hf.
  destruct (Z.eqb_spec (Sheet.width base / frameSize) 0) as [E|Ec];
    cbn [orb] in Hs; [discriminate|].
  destruct (Z.eqb_spec (Sheet.height base / frameSize) 0) as [E|Er];
    [discriminate|].
  injection Hs as <- <-. auto.
Qed.

(** X2.  With a positive frame size, two frames at different places of
    the returned list share no pixel; in particular no frame is returned
    twice. *)
Theorem slice_frames_disjoint :
  forall (base : Sheet.Texture) (frameSize : Z) list info,
    (0 < frameSize)%Z ->
    Sheet.slice base frameSize = Sheet.Returns (list, info) ->
    NoDup list
    /\ forall (i j : nat) (t1 t2 : Sheet.Texture) (px py : Z),
         nth_error list i = Some t1 -> nth_error list j = Some t2 ->
         i <> j ->
         ~ (Lab.holds (Sheet.frame t1) px py /\ Lab.holds (Sheet.frame t2) px py).
Proof.
  intros base frameSize list info Hf Hs.
  apply slice_returns_row_major in Hs as [-> _]; [|lia]. split.
  - apply row_major_NoDup. intros o1 i1 o2 i2 E.
    unfold Sheet.frame_at in E. injection E as Ex Ey. split; nia.
  - intros i j t1 t2 px py H1 H2 Hij [[Hx1 Hy1] [Hx2 Hy2]].
    apply row_major_nth_inv in H1 as [y1 [x1 [_ [_ [Hk1 ->]]]]].
    apply row_major_nth_inv in H2 as [y2 [x2 [_ [_ [Hk2 ->]]]]].
    cbn in Hx1, Hy1, Hx2, Hy2.
    assert (x1 = x2) by nia. assert (y1 = y2) by nia.
    subst. lia.
Qed.

Lemma slice_frames_disjoint_witness :
  NoDup [Sheet.frame_at 0 18 0 0; Sheet.frame_at 0 18 0 1].
Proof.
  exact (proj1 (@slice_frames_disjoint (Sheet.whole 0 36 18) 18
                  [Sheet.frame_at 0 18 0 0; Sheet.frame_at 0 18 0 1]
                  {| Sheet.info_cols := Sheet.Fin 2;
                     Sheet.info_rows := Sheet.Fin 1;
                     Sheet.info_width := 36; Sheet.info_height := 18 |}
                  eq_refl eq_refl)).
Defined.

(** X3.  With a positive frame size the returned frames cover exactly the
    top-left part of the sheet that whole frames fill: a pixel lies in
    some frame if and only if [0 <= px < width - width mod frameSize] and
    [0 <= py < height - height mod frameSize].  The strip of
    [width mod frameSize] columns at the right and [height mod frameSize]
    rows at the bottom is in no frame. *)
Theorem slice_frames_cover :
  forall (base : Sheet.Texture) (frameSize : Z) list info,
    (0 < frameSize)%Z ->
    Sheet.slice base frameSize = Sheet.Returns (list, info) ->
    forall px py : Z,
      (exists t, In t list /\ Lab.holds (Sheet.frame t) px py)
      <-> (0 <= px < Sheet.width base - Sheet.width base mod frameSize)%Z
          /\ (0 <= py < Sheet.height base - Sheet.height base mod frameSize)%Z.
Proof.
  intros base frameSize list info Hf Hs px py.
  apply slice_returns_row_major in Hs as [-> _]; [|lia].
  set (w := Sheet.width base). set (h := Sheet.height base).
  pose proof (Z.div_mod w frameSize ltac:(lia)) as Hw.
  pose proof (Z.div_mod h frameSize ltac:(lia)) as Hh.
  split.
  - intros [t [Hin [Hx Hy]]].
    apply row_major_In in Hin as [y [x [Hyr [Hxr ->]]]].
    cbn in Hx, Hy. split; nia.
  - intros [Hx Hy].
    pose proof (Z.div_mod px frameSize ltac:(lia)) as Hpx.
    pose proof (Z.div_mod py frameSize ltac:(lia)) as Hpy.
    pose proof (Z.mod_pos_bound px frameSize Hf) as Hmx.
    pose proof (Z.mod_pos_bound py frameSize Hf) as Hmy.
    exists (Sheet.frame_at (Sheet.source base) frameSize
              (py / frameSize) (px / frameSize)).
    split.
    + apply row_major_In. exists (py / frameSize)%Z, (px / frameSize)%Z.
      split; [|split; [|reflexivity]].
      * split; [apply Z.div_pos; lia|].
        apply Z.div_lt_upper_bound; [lia|]. fold h. nia.
      * split; [apply Z.div_pos; lia|].
        apply Z.div_lt_upper_bound; [lia|]. fold w. nia.
    + unfold Lab.holds; cbn. split; nia.
Qed.

Lemma slice_frames_cover_witness :
  (exists t,
      In t [Sheet.frame_at 0 18 0 0; Sheet.frame_at 0 18 0 1]
      /\ Lab.holds (Sheet.frame t) 35 17)
  /\ ~ (exists t,
           In t [Sheet.frame_at 0 18 0 0; Sheet.frame_at 0 18 0 1]
           /\ Lab.holds (Sheet.frame t) 36 17).
Proof.
  pose proof (@slice_frames_cover (Sheet.whole 0 40 30) 18
                [Sheet.frame_at 0 18 0 0; Sheet.frame_at 0 18 0 1]
                {| Sheet.info_cols := Sheet.Fin 2;
                   Sheet.info_rows := Sheet.Fin 1;
                   Sheet.info_width := 40; Sheet.info_height := 30 |}
                eq_refl eq_refl) as H.
  split.
  - apply H. cbn. lia.
  - intros Hex. apply H in Hex. cbn in Hex. lia.
Defined.

(** X4.  A negative frame size is not an error for the effect: on a sheet
    of positive size both counts are negative, the loops do not run, and
    the effect returns no frame at all; the page then has no texture, no
    error, and a sheet info whose product of counts is positive. *)
Theorem slice_negative_frame_size :
  forall (base : Sheet.Texture) (frameSize : Z) (st : Sheet.State),
    (frameSize < 0)%Z ->
    (0 < Sheet.width base)%Z -> (0 < Sheet.height base)%Z ->
    Sheet.mode st = Sheet.sheet -> Sheet.frameSize st = frameSize ->
    exists c r st',
      (c < 0)%Z /\ (r < 0)%Z
      /\ Sheet.slice base frameSize
         = Sheet.Returns
             ([], {| Sheet.info_cols := Sheet.Fin c;
                     Sheet.info_rows := Sheet.Fin r;
                     Sheet.info_width := Sheet.width base;
                     Sheet.info_height := Sheet.height base |})
      /\ Sheet.load_effect (Some base) st = Some st'
      /\ Sheet.textures st' = [] /\ Sheet.error st' = None
      /\ Sheet.activeTexture (Sheet.textures st') (Sheet.frameIndex st')
           (Sheet.mode st') = Sheet.null.
Proof.
  intros base frameSize st Hf Hw Hh Hm Hfs.
  set (c := (Sheet.width base / frameSize)%Z).
  set (r := (Sheet.height base / frameSize)%Z).
  assert (Hc : (c < 0)%Z).
  { subst c.
    pose proof (Z.div_mod (Sheet.width base) frameSize ltac:(lia)).
    pose proof (Z.mod_neg_bound (Sheet.width base) frameSize Hf). nia. }
  assert (Hr : (r < 0)%Z).
  { subst r.
    pose proof (Z.div_mod (Sheet.height base) frameSize ltac:(lia)).
    pose proof (Z.mod_neg_bound (Sheet.height base) frameSize Hf). nia. }
  assert (Hs : Sheet.slice base frameSize
               = Sheet.Returns
                   ([], {| Sheet.info_cols := Sheet.Fin c;
                           Sheet.info_rows := Sheet.Fin r;
                           Sheet.info_width := Sheet.width base;
                           Sheet.info_height := Sheet.height base |})).
  { rewrite slice_nonzero by lia. fold c r.
    destruct (Z.eqb_spec c 0); [lia|]. destruct (Z.eqb_spec r 0); [lia|].
    cbn [orb]. rewrite row_major_empty by lia. reflexivity. }
  exists c, r. eexists. split; [exact Hc|]. split; [exact Hr|].
  split; [exact Hs|].
  unfold Sheet.load_effect.
  cbn [Sheet.mode Sheet.frameSize Sheet.setSheetInfo Sheet.setTextures
       Sheet.setError].
  rewrite Hm, Hfs, Hs.
  split; [reflexivity|]. repeat split.
Qed.

Lemma slice_negative_frame_size_witness :
  exists c r,
    (c < 0)%Z /\ (r < 0)%Z
    /\ Sheet.slice (Sheet.whole 0 180 180) (-18)
       = Sheet.Returns
           ([], {| Sheet.info_cols := Sheet.Fin c;
                   Sheet.info_rows := Sheet.Fin r;
                   Sheet.info_width := 180; Sheet.info_height := 180 |}).
Proof.
  destruct (@slice_negative_frame_size (Sheet.whole 0 180 180) (-18)
              {| Sheet.mode := Sheet.sheet; Sheet.frameSize := -18;
                 Sheet.frameIndex := 0; Sheet.textures := [];
                 Sheet.sheetInfo := None; Sheet.error := None |}
              eq_refl eq_refl eq_refl eq_refl eq_refl)
    as [c [r [st' [Hc [Hr [Hs _]]]]]].
  exists c, r. split; [exact Hc | split; [exact Hr | exact Hs]].
Defined.

(** ** The load effect as a whole *)

Lemma load_effect_sheet (base : Sheet.Texture) (st : Sheet.State) :
  Sheet.mode st = Sheet.sheet ->
  Sheet.load_effect (Some base) st
  = let st0 :=
      Sheet.setSheetInfo None (Sheet.setTextures [] (Sheet.setError None st)) in
    match Sheet.slice base (Sheet.frameSize st) with
    | Sheet.Returns (list, info) =>
        Some
          (Sheet.setFrameIndex
             (fun index =>
                if (length list =? 0)%nat then 0%Z
                else Z.rem index (Z.of_nat (length list)))
             (Sheet.setSheetInfo (Some info) (Sheet.setTextures list st0)))
    | Sheet.Throws e => Some (Sheet.setError (Some e) st0)
    | Sheet.Diverges => None
    end.
Proof.
  intros Hm. unfold Sheet.load_effect.
  cbn [Sheet.mode Sheet.frameSize Sheet.setSheetInfo Sheet.setTextures
       Sheet.setError].
  now rewrite Hm.
Qed.



Lemma state_eq (a b : Sheet.State) :
  Sheet.mode a = Sheet.mode b -> Sheet.frameSize a = Sheet.frameSize b ->
  Sheet.frameIndex a = Sheet.frameIndex b ->
  Sheet.textures a = Sheet.textures b ->
  Sheet.sheetInfo a = Sheet.sheetInfo b -> Sheet.error a = Sheet.error b ->
  a = b.
Proof. destruct a, b; cbn; congruence. Qed.

Ltac state_fields :=
  cbn [Sheet.mode Sheet.frameSize Sheet.frameIndex Sheet.textures
       Sheet.sheetInfo Sheet.error Sheet.setFrameIndex Sheet.setSheetInfo
       Sheet.setTextures Sheet.setError].

(** X6.  The load effect is idempotent: run again on the state it left,
    with the same image, it leaves that state; in particular the frame
    index it reduced is not reduced further. *)
Theorem load_effect_idempotent :
  forall (loaded : option Sheet.Texture) (st st' : Sheet.State),
    Sheet.load_effect loaded st = Some st' ->
    Sheet.load_effect loaded st' = Some st'.
Proof.
  intros loaded st st' H.
  destruct loaded as [base|]; [|injection H as <-; reflexivity].
  destruct (Sheet.mode st) eqn:Hm.
  - rewrite load_effect_sheet in H by exact Hm. cbv zeta in H.
    destruct (Sheet.slice base (Sheet.frameSize st)) as [[list info]|e|] eqn:Hs;
      [| |discriminate].
    + injection H as <-.
      rewrite load_effect_sheet by exact Hm. cbv zeta.
      replace (Sheet.frameSize
                 (Sheet.setFrameIndex
                    (fun index : Z =>
                       if (length list =? 0)%nat then 0%Z
                       else Z.rem index (Z.of_nat (length list)))
                    (Sheet.setSheetInfo (Some info)
                       (Sheet.setTextures list
                          (Sheet.setSheetInfo None
                             (Sheet.setTextures []
                                (Sheet.setError None st)))))))
        with (Sheet.frameSize st) by reflexivity.
      rewrite Hs. f_equal. apply state_eq; state_fields; try reflexivity.
      destruct (Nat.eqb_spec (length list) 0); [reflexivity|].
      apply Z.rem_rem. lia.
    + injection H as <-.
      rewrite load_effect_sheet by exact Hm. cbv zeta.
      replace (Sheet.frameSize
                 (Sheet.setError (Some e)
                    (Sheet.setSheetInfo None
                       (Sheet.setTextures [] (Sheet.setError None st)))))
        with (Sheet.frameSize st) by reflexivity.
      rewrite Hs. f_equal; try (apply state_eq; state_fields; reflexivity).
  - unfold Sheet.load_effect in H |- *.
    replace (Sheet.mode
               (Sheet.setSheetInfo None
                  (Sheet.setTextures [] (Sheet.setError None st))))
      with (Sheet.mode st) in H by reflexivity.
    rewrite Hm in H. injection H as <-.
    replace (Sheet.mode _) with (Sheet.mode st) by reflexivity.
    rewrite Hm. f_equal; try (apply state_eq; state_fields; reflexivity).
  - unfold Sheet.load_effect in H |- *.
    replace (Sheet.mode
               (Sheet.setSheetInfo None
                  (Sheet.setTextures [] (Sheet.setError None st))))
      with (Sheet.mode st) in H by reflexivity.
    rewrite Hm in H. injection H as <-.
    replace (Sheet.mode _) with (Sheet.mode st) by reflexivity.
    rewrite Hm. f_equal; try (apply state_eq; state_fields; reflexivity).
Qed.

Lemma load_effect_idempotent_witness :
  let st' :=
    {| Sheet.mode := Sheet.sheet; Sheet.frameSize := 18;
       Sheet.frameIndex := 1;
       Sheet.textures := [Sheet.frame_at 0 18 0 0; Sheet.frame_at 0 18 0 1];
       Sheet.sheetInfo :=
         Some {| Sheet.info_cols := Sheet.Fin 2; Sheet.info_rows := Sheet.Fin 1;
                 Sheet.info_width := 36; Sheet.info_height := 18 |};
       Sheet.error := None |} in
  Sheet.load_effect (Some (Sheet.whole 0 36 18))
    (Sheet.setFrameIndex (fun _ => 7%Z) Sheet.initial) = Some st'
  /\ Sheet.load_effect (Some (Sheet.whole 0 36 18)) st' = Some st'.
Proof.
  cbv zeta.
  assert (H : Sheet.load_effect (Some (Sheet.whole 0 36 18))
                (Sheet.setFrameIndex (fun _ => 7%Z) Sheet.initial)
              = Some
                  {| Sheet.mode := Sheet.sheet; Sheet.frameSize := 18;
                     Sheet.frameIndex := 1;
                     Sheet.textures :=
                       [Sheet.frame_at 0 18 0 0; Sheet.frame_at 0 18 0 1];
                     Sheet.sheetInfo :=
                       Some {| Sheet.info_cols := Sheet.Fin 2;
                               Sheet.info_rows := Sheet.Fin 1;
                               Sheet.info_width := 36;
                               Sheet.info_height := 18 |};
                     Sheet.error := None |}) by (vm_compute; reflexivity).
  split; [exact H|].
  exact (load_effect_idempotent _ _ H).
Defined.



(** ** What the FloorLab page keeps *)

Lemma or_Z_nonzero v d : d <> 0%Z -> Lab.or_Z v d <> 0%Z.
Proof.
  intros Hd. unfold Lab.or_Z. destruct (Z.eqb_spec v 0); assumption.
Qed.

Lemma or_R_nonzero v d : d <> 0%R -> Lab.or_R v d <> 0%R.
Proof.
  intros Hd. unfold Lab.or_R. destruct (Req_EM_T v 0); assumption.
Qed.

Lemma load_effect_keeps (loaded : option Sheet.Texture) (st st' : Sheet.State) :
  Sheet.frameSize st <> 0%Z ->
  Sheet.load_effect loaded st = Some st' ->
  Sheet.frameSize st' = Sheet.frameSize st
  /\ Sheet.mode st' = Sheet.mode st
  /\ (Sheet.error st' <> None ->
      Sheet.textures st' = [] /\ Sheet.sheetInfo st' = None)
  /\ (forall info, Sheet.sheetInfo st' = Some info ->
        exists c r,
          Sheet.info_cols info = Sheet.Fin c
          /\ Sheet.info_rows info = Sheet.Fin r
          /\ length (Sheet.textures st') = (Z.to_nat r * Z.to_nat c)%nat).
Proof.
  intros Hf H.
  assert (Hother :
            forall base,
              Sheet.setFrameIndex (fun _ => 0%Z)
                (Sheet.setTextures [base]
                   (Sheet.setSheetInfo None
                      (Sheet.setTextures [] (Sheet.setError None st)))) = st' ->
              Sheet.frameSize st' = Sheet.frameSize st
              /\ Sheet.mode st' = Sheet.mode st
              /\ (Sheet.error st' <> None ->
                  Sheet.textures st' = [] /\ Sheet.sheetInfo st' = None)
              /\ (forall info, Sheet.sheetInfo st' = Some info ->
                    exists c r,
                      Sheet.info_cols info = Sheet.Fin c
                      /\ Sheet.info_rows info = Sheet.Fin r
                      /\ length (Sheet.textures st')
                         = (Z.to_nat r * Z.to_nat c)%nat)).
  { intros base <-. state_fields.
    split; [reflexivity|]. split; [reflexivity|]. split.
    - intros He. now contradiction He.
    - intros info Hi. discriminate Hi. }
  destruct loaded as [base|].
  - destruct (Sheet.mode st) eqn:Hm.
    + rewrite load_effect_sheet in H by exact Hm. cbv zeta in H.
      rewrite slice_nonzero in H by exact Hf.
      destruct ((Sheet.width base / Sheet.frameSize st =? 0)%Z
                || (Sheet.height base / Sheet.frameSize st =? 0)%Z);
        injection H as <-; state_fields.
      * split; [reflexivity|]. split; [exact Hm|]. split.
        -- intros _. split; reflexivity.
        -- intros info Hi. discriminate Hi.
      * split; [reflexivity|]. split; [exact Hm|]. split.
        -- intros He. now contradiction He.
        -- intros info Hi. injection Hi as <-.
           cbn [Sheet.info_cols Sheet.info_rows].
           eexists _, _. split; [reflexivity|]. split; [reflexivity|].
           apply row_major_length.
    + unfold Sheet.load_effect in H.
      replace (Sheet.mode
                 (Sheet.setSheetInfo None
                    (Sheet.setTextures [] (Sheet.setError None st))))
        with (Sheet.mode st) in H by reflexivity.
      rewrite Hm in H. injection H as H. now apply (Hother base).
    + unfold Sheet.load_effect in H.
      replace (Sheet.mode
                 (Sheet.setSheetInfo None
                    (Sheet.setTextures [] (Sheet.setError None st))))
        with (Sheet.mode st) in H by reflexivity.
      rewrite Hm in H. injection H as H. now apply (Hother base).
  - unfold Sheet.load_effect in H. injection H as <-. state_fields.
    split; [reflexivity|]. split; [reflexivity|]. split.
    + intros _. split; reflexivity.
    + intros info Hi. discriminate Hi.
Qed.

Lemma load_effect_ends (loaded : option Sheet.Texture) (st : Sheet.State) :
  Sheet.frameSize st <> 0%Z ->
  exists st', Sheet.load_effect loaded st = Some st'.
Proof.
  intros Hf. destruct loaded as [base|]; [|eexists; reflexivity].
  destruct (Sheet.mode st) eqn:Hm.
  - rewrite load_effect_sheet by exact Hm. cbv zeta.
    rewrite slice_nonzero by exact Hf.
    destruct ((Sheet.width base / Sheet.frameSize st =? 0)%Z
              || (Sheet.height base / Sheet.frameSize st =? 0)%Z);
      eexists; reflexivity.
  - unfold Sheet.load_effect.
    cbn [Sheet.mode Sheet.setSheetInfo Sheet.setTextures Sheet.setError].
    rewrite Hm. eexists; reflexivity.
  - unfold Sheet.load_effect.
    cbn [Sheet.mode Sheet.setSheetInfo Sheet.setTextures Sheet.setError].
    rewrite Hm. eexists; reflexivity.
Qed.

Lemma initial_invariant : Lab.invariant Lab.initial.
Proof.
  constructor; cbn.
  - discriminate.
  - lra.
  - split; lra.
  - split; discriminate.
  - intros H; now contradiction H.
  - intros info H; discriminate H.
Qed.

Lemma mode_effect_invariant s : Lab.invariant s -> Lab.invariant (Lab.mode_effect s).
Proof.
  intros [H1 H2 H3 H4 H5 H6]. unfold Lab.mode_effect.
  destruct (Sheet.mode (Lab.core s)); constructor; cbn; auto.
  - apply or_Z_nonzero; discriminate.
  - apply or_R_nonzero; lra.
Qed.

Lemma select_onChange_invariant value s :
  Lab.invariant s -> Lab.invariant (Lab.select_onChange value s).
Proof.
  intros [H1 H2 H3 H4 H5 H6]. unfold Lab.select_onChange.
  destruct value; constructor; cbn; auto.
Qed.

Lemma reset_onClick_invariant s :
  Lab.invariant s -> Lab.invariant (Lab.reset_onClick s).
Proof.
  intros [H1 H2 H3 H4 H5 H6]. unfold Lab.reset_onClick.
  destruct (Sheet.mode (Lab.core s)); constructor; cbn; auto;
    try discriminate; try lra; try (split; lra).
Qed.

Lemma step_invariant s e :
  Lab.invariant s ->
  exists s', Lab.step s e = Some s' /\ Lab.invariant s'.
Proof.
  intros Hinv. destruct e; cbn [Lab.step].
  - eexists. split; [reflexivity|].
    destruct (Lab.mode_eqb value (Sheet.mode (Lab.core s))).
    + now apply select_onChange_invariant.
    + now apply mode_effect_invariant, select_onChange_invariant.
  - eexists. split; [reflexivity|].
    destruct Hinv as [H1 H2 H3 H4 H5 H6]; constructor; cbn; auto.
  - eexists. split; [reflexivity|].
    destruct Hinv as [H1 H2 H3 H4 H5 H6]; constructor; cbn; auto.
    apply or_Z_nonzero; discriminate.
  - eexists. split; [reflexivity|].
    destruct Hinv as [H1 H2 H3 H4 H5 H6]; constructor; cbn; auto.
    apply or_R_nonzero; lra.
  - eexists. split; [reflexivity|].
    destruct Hinv as [H1 H2 H3 H4 H5 H6]; constructor; cbn; auto.
  - eexists. split; [reflexivity|].
    destruct Hinv as [H1 H2 [H3 H3'] H4 H5 H6]; constructor; cbn; auto.
    split; [apply or_R_nonzero; lra | assumption].
  - eexists. split; [reflexivity|].
    destruct Hinv as [H1 H2 [H3 H3'] H4 H5 H6]; constructor; cbn; auto.
    split; [assumption | apply or_R_nonzero; lra].
  - eexists. split; [reflexivity|].
    destruct Hinv as [H1 H2 H3 H4 H5 H6]; constructor; cbn; auto.
  - eexists. split; [reflexivity|].
    destruct Hinv as [H1 H2 H3 H4 H5 H6]; constructor; cbn; auto.
  - eexists. split; [reflexivity|].
    destruct Hinv as [H1 H2 H3 [H4 H4'] H5 H6]; constructor; cbn; auto.
    split; [apply or_Z_nonzero; discriminate | assumption].
  - eexists. split; [reflexivity|].
    destruct Hinv as [H1 H2 H3 [H4 H4'] H5 H6]; constructor; cbn; auto.
    split; [assumption | apply or_Z_nonzero; discriminate].
  - eexists. split; [reflexivity|]. now apply reset_onClick_invariant.
  - eexists. split; [reflexivity|].
    destruct Hinv as [H1 H2 H3 H4 H5 H6]; constructor; cbn; auto.
    intros info H; discriminate H.
  - destruct Hinv as [H1 H2 H3 H4 H5 H6].
    destruct (@load_effect_ends loaded (Lab.core s) H1) as [st' Hl].
    rewrite Hl. eexists. split; [reflexivity|].
    destruct (@load_effect_keeps _ _ _ H1 Hl) as [Kf [Km [Ke Ki]]].
    constructor; cbn; auto. congruence.
Qed.

Lemma run_invariant es :
  forall s, Lab.invariant s ->
            exists s', Lab.run s es = Some s' /\ Lab.invariant s'.
Proof.
  induction es as [|e es IH]; intros s Hinv; cbn [Lab.run].
  - exists s. auto.
  - destruct (step_invariant e Hinv) as [s1 [Hs1 Hinv1]].
    rewrite Hs1. now apply IH.
Qed.


Lemma activeTexture_no_textures frameIndex mode :
  Sheet.activeTexture [] frameIndex mode = Sheet.null.
Proof. reflexivity. Qed.

(** X9.  While the error banner is shown nothing is drawn: in every state
    the page can reach, a set error comes with no texture, no sheet info
    and an empty list of sprites. *)
Theorem error_banner_means_no_sprites :
  forall (es : list Lab.event) (s : Lab.FloorLab) (viewport_width viewport_height : R),
    Lab.run Lab.initial es = Some s ->
    Sheet.error (Lab.core s) <> None ->
    Sheet.textures (Lab.core s) = []
    /\ Sheet.sheetInfo (Lab.core s) = None
    /\ Lab.render s viewport_width viewport_height = [].
Proof.
  intros es s vw vh Hr He.
  destruct (run_invariant es initial_invariant) as [s' [Hr' Hinv]].
  assert (s' = s) by congruence. subst s'.
  destruct (Lab.error_hides Hinv He) as [Ht Hi].
  split; [exact Ht|]. split; [exact Hi|].
  unfold Lab.render, Lab.activeTexture. rewrite Ht. reflexivity.
Qed.

Lemma error_banner_means_no_sprites_witness :
  exists s,
    Lab.run Lab.initial [Lab.LoadSettles None] = Some s
    /\ Sheet.error (Lab.core s) = Some Sheet.LoadRejected
    /\ Lab.render s 1280 720 = [].
Proof.
  eexists. split; [reflexivity|]. split; [reflexivity|].
  apply (@error_banner_means_no_sprites [Lab.LoadSettles None] _ 1280 720
           eq_refl).
  discriminate.
Defined.



(** ** Switching modes *)





(** ** Placement *)

Lemma isoPosition_inj (tileWidth tileHeight : R) (col1 row1 col2 row2 : Z) :
  tileWidth <> 0%R -> tileHeight <> 0%R ->
  Iso.isoPosition (IZR col1) (IZR row1) tileWidth tileHeight
  = Iso.isoPosition (IZR col2) (IZR row2) tileWidth tileHeight ->
  col1 = col2 /\ row1 = row2.
Proof.
  intros Hw Hh Heq. unfold Iso.isoPosition in Heq. injection Heq as Hx Hy.
  apply Rmult_eq_reg_r in Hx; [|lra].
  apply Rmult_eq_reg_r in Hy; [|lra].
  assert (Hc : IZR col1 = IZR col2) by lra.
  assert (Hr : IZR row1 = IZR row2) by lra.
  apply eq_IZR in Hc, Hr. auto.
Qed.

(** X12.  The direct projection separates the integer cells exactly when
    neither tile dimension is 0: with a non-zero width and height, also
    negative ones, equal screen points come from equal cells; with a zero
    width the cells (0, 1) and (1, 0) fall together, with a zero height
    the cells (0, 0) and (1, 1). *)
Theorem isoPosition_injective_iff :
  forall tileWidth tileHeight : R,
    (forall col1 row1 col2 row2 : Z,
        Iso.isoPosition (IZR col1) (IZR row1) tileWidth tileHeight
        = Iso.isoPosition (IZR col2) (IZR row2) tileWidth tileHeight ->
        col1 = col2 /\ row1 = row2)
    <-> (tileWidth <> 0%R /\ tileHeight <> 0%R).
Proof.
  intros tw th. split.
  - intros Hinj. split; intros ->.
    + destruct (Hinj 0%Z 1%Z 1%Z 0%Z) as [H _]; [|discriminate H].
      unfold Iso.isoPosition. apply pair_eq; lra.
    + destruct (Hinj 0%Z 0%Z 1%Z 1%Z) as [H _]; [|discriminate H].
      unfold Iso.isoPosition. apply pair_eq; lra.
  - intros [Hw Hh] c1 r1 c2 r2. now apply isoPosition_inj.
Qed.




(** ** Scales, anchors and depth *)

Lemma activeTexture_In (textures : list Sheet.Texture) frameIndex mode t :
  Sheet.activeTexture textures frameIndex mode = Sheet.value t -> In t textures.
Proof.
  unfold Sheet.activeTexture, Sheet.at_index. intros H.
  destruct (length textures =? 0)%nat; [discriminate|].
  destruct mode.
  - destruct (_ <? 0)%Z; [discriminate|].
    destruct (nth_error textures _) as [a|] eqn:E; [|discriminate].
    injection H as <-. eapply nth_error_In; eassumption.
  - destruct (0 <? 0)%Z; [discriminate|].
    destruct (nth_error textures _) as [a|] eqn:E; [|discriminate].
    injection H as <-. eapply nth_error_In; eassumption.
  - destruct (0 <? 0)%Z; [discriminate|].
    destruct (nth_error textures _) as [a|] eqn:E; [|discriminate].
    injection H as <-. eapply nth_error_In; eassumption.
Qed.

(** X14.  Flat-tile mode with "scale sprite to exactly W x H" checked: a
    texture of non-zero width and height is displayed at exactly the typed
    tile width and height, centred on its anchor. *)
Theorem flat_tile_fits_exactly :
  forall (s : Lab.FloorLab) (t : Sheet.Texture),
    Sheet.mode (Lab.core s) = Sheet.tile ->
    Lab.fitFlatTile s = true ->
    Lab.activeTexture s = Sheet.value t ->
    Sheet.width t <> 0%Z -> Sheet.height t <> 0%Z ->
    Lab.scaledWidth s = Lab.tileWidth s
    /\ Lab.scaledHeight s = Lab.tileHeight s
    /\ Lab.anchor (Lab.layout s) = (0.5, 0.5)%R.
Proof.
  intros s t Hm Hfit Ha Hw Hh.
  unfold Lab.scaledWidth, Lab.scaledHeight, Lab.layout.
  rewrite Hm, Hfit, Ha. cbn.
  apply not_0_IZR in Hw, Hh.
  repeat split; field; assumption.
Qed.

Lemma flat_tile_fits_exactly_witness :
  let s :=
    Lab.setCore (fun _ =>
      {| Sheet.mode := Sheet.tile; Sheet.frameSize := 18;
         Sheet.frameIndex := 0; Sheet.textures := [Sheet.whole 0 256 256];
         Sheet.sheetInfo := None; Sheet.error := None |}) Lab.initial in
  Lab.scaledWidth s = 128%R /\ Lab.scaledHeight s = 64%R.
Proof.
  cbv zeta.
  destruct (@flat_tile_fits_exactly
              (Lab.setCore (fun _ =>
                 {| Sheet.mode := Sheet.tile; Sheet.frameSize := 18;
                    Sheet.frameIndex := 0;
                    Sheet.textures := [Sheet.whole 0 256 256];
                    Sheet.sheetInfo := None; Sheet.error := None |}) Lab.initial)
              (Sheet.whole 0 256 256) eq_refl eq_refl eq_refl)
    as [Hw [Hh _]]; [discriminate | discriminate |].
  split; [exact Hw | exact Hh].
Defined.

(** X15.  Cuboid mode with "uniform scale" checked: a texture of non-zero
    width is displayed at exactly the typed width with its aspect ratio
    kept (displayed height * width = displayed width * height), anchored
    at its bottom centre and moved down by half the tile height in use. *)
Theorem cuboid_scales_uniformly :
  forall (s : Lab.FloorLab) (t : Sheet.Texture),
    Sheet.mode (Lab.core s) = Sheet.cuboid ->
    Lab.uniformCuboid s = true ->
    Lab.activeTexture s = Sheet.value t ->
    Sheet.width t <> 0%Z ->
    Lab.scaledWidth s = Lab.tileWidth s
    /\ (Lab.scaledHeight s * IZR (Sheet.width t)
        = Lab.scaledWidth s * IZR (Sheet.height t))%R
    /\ Lab.anchor (Lab.layout s) = (0.5, 1)%R
    /\ Lab.baseYOffset (Lab.layout s) = (Rmax 1 (Lab.tileHeight s) / 2)%R.
Proof.
  intros s t Hm Hu Ha Hw.
  unfold Lab.scaledWidth, Lab.scaledHeight, Lab.layout, Lab.tileHeightPx.
  rewrite Hm, Hu, Ha. cbn.
  apply not_0_IZR in Hw.
  repeat split; field; assumption.
Qed.

Lemma cuboid_scales_uniformly_witness :
  let s :=
    Lab.setCore (fun _ =>
      {| Sheet.mode := Sheet.cuboid; Sheet.frameSize := 18;
         Sheet.frameIndex := 0; Sheet.textures := [Sheet.whole 0 64 96];
         Sheet.sheetInfo := None; Sheet.error := None |}) Lab.initial in
  Lab.scaledWidth s = 128%R.
Proof.
  cbv zeta.
  destruct (@cuboid_scales_uniformly
              (Lab.setCore (fun _ =>
                 {| Sheet.mode := Sheet.cuboid; Sheet.frameSize := 18;
                    Sheet.frameIndex := 0;
                    Sheet.textures := [Sheet.whole 0 64 96];
                    Sheet.sheetInfo := None; Sheet.error := None |}) Lab.initial)
              (Sheet.whole 0 64 96) eq_refl eq_refl eq_refl)
    as [Hw _]; [discriminate |].
  exact Hw.
Defined.

(** X16.  In sheet mode, once a load has settled, the active texture is a
    square frame of the current frame size, so the sprite is displayed
    exactly as wide as the tile footprint and twice as high as the
    footprint is. *)
Theorem sheet_sprite_matches_footprint :
  forall (es : list Lab.event) (s s' : Lab.FloorLab)
         (base t : Sheet.Texture),
    Lab.run Lab.initial es = Some s ->
    Sheet.mode (Lab.core s) = Sheet.sheet ->
    Lab.step s (Lab.LoadSettles (Some base)) = Some s' ->
    Lab.activeTexture s' = Sheet.value t ->
    Sheet.width t = Sheet.frameSize (Lab.core s')
    /\ Sheet.height t = Sheet.frameSize (Lab.core s')
    /\ Lab.scaledWidth s' = Lab.tileWidthPx s'
    /\ Lab.scaledHeight s' = (2 * Lab.tileHeightPx s')%R.
Proof.
  intros es s s' base t Hr Hm Hstep Ha.
  destruct (run_invariant es initial_invariant) as [s0 [Hr0 Hinv]].
  assert (s0 = s) by congruence. subst s0.
  pose proof (Lab.frameSize_nonzero Hinv) as Hf.
  cbn [Lab.step] in Hstep.
  destruct (Sheet.load_effect (Some base) (Lab.core s)) as [st'|] eqn:Hl;
    [|discriminate].
  injection Hstep as <-.
  assert (Hsize : Sheet.width t = Sheet.frameSize st'
                  /\ Sheet.height t = Sheet.frameSize st'
                  /\ Sheet.mode st' = Sheet.sheet).
  { unfold Lab.activeTexture in Ha. cbn [Lab.core Lab.setCore] in Ha.
    apply activeTexture_In in Ha.
    rewrite load_effect_sheet in Hl by exact Hm. cbv zeta in Hl.
    destruct (Sheet.slice base (Sheet.frameSize (Lab.core s)))
      as [[list info]|e|] eqn:Hs; [| |discriminate].
    - apply slice_returns_row_major in Hs as [-> _]; [|exact Hf].
      injection Hl as <-. cbn in Ha |- *.
      apply row_major_In in Ha as [y [x [_ [_ ->]]]]. cbn. auto.
    - injection Hl as <-. cbn in Ha. contradiction. }
  destruct Hsize as [Hw [Hh Hm']].
  split; [exact Hw|]. split; [exact Hh|].
  unfold Lab.scaledWidth, Lab.scaledHeight, Lab.layout, Lab.tileWidthPx,
    Lab.tileHeightPx, Iso.tileWidthPx, Iso.tileHeightPx.
  rewrite Ha. cbn [Lab.core Lab.setCore Lab.sheetScale].
  rewrite Hm'. cbn. rewrite Hw, Hh. split; lra.
Qed.

Lemma sheet_sprite_matches_footprint_witness :
  exists s' t,
    Lab.step Lab.initial (Lab.LoadSettles (Some (Sheet.whole 0 180 180)))
    = Some s'
    /\ Lab.activeTexture s' = Sheet.value t
    /\ Lab.scaledWidth s' = Lab.tileWidthPx s'.
Proof.
  eexists _, _. split; [reflexivity|]. split; [reflexivity|].
  destruct (@sheet_sprite_matches_footprint [] Lab.initial _
              (Sheet.whole 0 180 180) _ eq_refl eq_refl eq_refl eq_refl)
    as [_ [_ [Hw _]]].
  exact Hw.
Defined.



(** ** What is drawn *)




(** X19.  The extent of a drawn grid.  With non-negative tile sizes every
    cell of a [rows] by [cols] grid is projected to a point with
    [-(rows - 1) * tileWidth / 2 <= x <= (cols - 1) * tileWidth / 2] and
    [0 <= y <= (rows + cols - 2) * tileHeight / 2]. *)
Theorem grid_projection_extent :
  forall (rows cols : Z) (tileWidth tileHeight : R) (cell : Grid.coord),
    (0 <= tileWidth)%R -> (0 <= tileHeight)%R ->
    In cell (Grid.grid rows cols) ->
    let p := Iso.isoPosition (IZR (Grid.col cell)) (IZR (Grid.row cell))
               tileWidth tileHeight in
    (- (IZR rows - 1) * tileWidth / 2 <= fst p
     <= (IZR cols - 1) * tileWidth / 2)%R
    /\ (0 <= snd p <= (IZR rows + IZR cols - 2) * tileHeight / 2)%R.
Proof.
  intros rows cols tw th [r c] Hw Hh Hin p.
  rewrite grid_row_major in Hin.
  apply row_major_In in Hin as [o [i [Ho [Hi E]]]]. injection E as -> ->.
  subst p. unfold Iso.isoPosition. cbn [fst snd Grid.col Grid.row].
  assert (0 <= IZR o)%R by (apply IZR_le; lia).
  assert (0 <= IZR i)%R by (apply IZR_le; lia).
  assert (IZR o <= IZR rows - 1)%R
    by (rewrite <- minus_IZR; apply IZR_le; lia).
  assert (IZR i <= IZR cols - 1)%R
    by (rewrite <- minus_IZR; apply IZR_le; lia).
  repeat split; nra.
Qed.

Lemma grid_projection_extent_witness :
  (fst (Iso.isoPosition 7 5 128 64) <= (8 - 1) * 128 / 2)%R.
Proof.
  destruct (@grid_projection_extent 6 8 128 64
              {| Grid.row := 5; Grid.col := 7 |}) as [[_ H] _].
  - lra.
  - lra.
  - rewrite grid_row_major. apply row_major_In. exists 5%Z, 7%Z.
    repeat split; lia.
  - exact H.
Defined.

(** X20.  FloorOnly and BlocksFloor: a texture of non-zero width and
    height is displayed by FloorOnly at exactly 128 by 64; BlocksFloor
    displays a block exactly 128 wide with its aspect ratio kept, seated
    half a tile height below the point [iso] gives, which is where the
    next diagonal of cells is centred. *)
Theorem fixed_floors_fit_the_tile :
  forall (texture : Sheet.Texture) (col row : Z) (centerX centerY : R),
    Sheet.width texture <> 0%Z ->
    Sheet.height texture <> 0%Z ->
    (IZR (Sheet.width texture) * fst (Floor.FloorOnly_scale texture) = 128)%R
    /\ (IZR (Sheet.height texture) * snd (Floor.FloorOnly_scale texture) = 64)%R
    /\ (IZR (Sheet.width texture) * Floor.BlocksFloor_scale texture = 128)%R
    /\ (IZR (Sheet.height texture) * Floor.BlocksFloor_scale texture
        * IZR (Sheet.width texture)
        = 128 * IZR (Sheet.height texture))%R
    /\ Floor.FloorOnly_position (IZR col) (IZR row) centerX centerY
       = Iso.iso (IZR col) (IZR row) centerX centerY
    /\ Floor.yBase (IZR col) (IZR row) centerX centerY
       = snd (Iso.iso (IZR (col + 1)) (IZR row) centerX centerY).
Proof.
  intros t col row cx cy Hw Hh. apply not_0_IZR in Hw, Hh.
  unfold Floor.FloorOnly_scale, Floor.BlocksFloor_scale,
    Floor.FloorOnly_position, Floor.yBase, Iso.iso, Iso.TILE_W, Iso.TILE_H.
  cbn [fst snd]. rewrite plus_IZR.
  split; [field; assumption|]. split; [field; assumption|].
  split; [field; assumption|]. split; [field; assumption|].
  split; [reflexivity | lra].
Qed.

Lemma fixed_floors_fit_the_tile_witness :
  (IZR (Sheet.width (Sheet.whole 0%nat 256%Z 128%Z))
   * fst (Floor.FloorOnly_scale (Sheet.whole 0%nat 256%Z 128%Z)) = 128)%R.
Proof.
  destruct (@fixed_floors_fit_the_tile (Sheet.whole 0 256 128) 0 0 0 0)
    as [H _]; [discriminate | discriminate | exact H].
Defined.

(** ** More on the wave *)

Lemma run_cons g e es : Anim.run g (e :: es) = Anim.run (Anim.step g e) es.
Proof. reflexivity. Qed.

Lemma step_x g e : Anim.x (Anim.step g e) = Anim.x g.
Proof.
  destruct e; cbn [Anim.step]; try reflexivity.
  unfold Anim.tick. now destruct (Anim.animateRef g).
Qed.

Lemma step_on_wave g e : Room.on_wave g -> Room.on_wave (Anim.step g e).
Proof.
  unfold Room.on_wave. intros H. destruct e; cbn [Anim.step].
  - exact H.
  - left. reflexivity.
  - unfold Anim.tick. destruct (Anim.animateRef g); cbn; auto.
Qed.

Lemma run_on_wave es :
  forall g, Room.on_wave g ->
            Room.on_wave (Anim.run g es) /\ Anim.x (Anim.run g es) = Anim.x g.
Proof.
  induction es as [|e es IH]; intros g H; [split; [exact H | reflexivity]|].
  rewrite run_cons. destruct (IH (Anim.step g e)) as [Hw Hx].
  - now apply step_on_wave.
  - split; [exact Hw|]. now rewrite Hx, step_x.
Qed.

(** X21.  Whatever a tile goes through after its mount, its elevation is
    either 0 or [16 * cos (clock - x)] for its own column [x], so it stays
    within 16 either way, and its sprite is drawn at most 16 pixels above
    or below its place on the floor. *)
Theorem wave_stays_within_amplitude :
  forall (animate : bool) (col gridY viewportW viewportH : R)
         (es : list Anim.event),
    let g := Anim.run (Anim.mount animate col) es in
    Anim.x g = col
    /\ (Anim.elevation g = 0
        \/ Anim.elevation g = 16 * cos (Anim.timeRef g - col))%R
    /\ (-16 <= Anim.elevation g <= 16)%R
    /\ (snd (Iso.screenToIsometric col gridY) + viewportH / 4 - 16
        <= snd (Room.sprite_position g gridY viewportW viewportH)
        <= snd (Iso.screenToIsometric col gridY) + viewportH / 4 + 16)%R.
Proof.
  intros animate col gridY vw vh es g.
  destruct (@run_on_wave es (Anim.mount animate col)) as [Hw Hx].
  { left. unfold Anim.mount, Anim.animate_effect; cbn. now destruct animate. }
  fold g in Hw, Hx.
  assert (Hxc : Anim.x g = col) by (rewrite Hx; reflexivity).
  assert (Hb : (-16 <= Anim.elevation g <= 16)%R).
  { destruct Hw as [-> | ->]; [lra|].
    pose proof (COS_bound (Anim.timeRef g - Anim.x g)). lra. }
  split; [exact Hxc|]. split; [rewrite <- Hxc; exact Hw|].
  split; [exact Hb|].
  unfold Room.sprite_position. rewrite Hxc.
  destruct (Iso.screenToIsometric col gridY) as [isoX isoY].
  cbn [snd]. lra.
Qed.

Lemma step_clock g e :
  (Anim.timeRef g <= Anim.timeRef (Anim.step g e)
   <= Anim.timeRef g
      + 0.1 * INR (Room.ticks [e]))%R.
Proof.
  destruct e; cbn [Anim.step Room.ticks filter length INR Anim.animate_effect
                   Anim.timeRef]; try lra.
  unfold Anim.tick. destruct (Anim.animateRef g); cbn; lra.
Qed.

Lemma ticks_cons e es :
  INR (Room.ticks (e :: es)) = (INR (Room.ticks [e]) + INR (Room.ticks es))%R.
Proof.
  rewrite <- plus_INR. f_equal. unfold Room.ticks. cbn [filter].
  destruct e; reflexivity.
Qed.

(** X22.  The clock of a tile never goes back, and over any events it
    advances by at most 0.1 per tick among them; by exactly 0.1 per tick
    when the tile is Running at the start and is not disabled on the
    way. *)
Theorem clock_counts_running_ticks :
  forall (es : list Anim.event) (g : Anim.GrassBlock),
    (Anim.timeRef g <= Anim.timeRef (Anim.run g es)
     <= Anim.timeRef g + 0.1 * INR (Room.ticks es))%R
    /\ (Anim.phase g = Anim.Running ->
        ~ In Anim.disable es ->
        Anim.timeRef (Anim.run g es)
        = (Anim.timeRef g + 0.1 * INR (Room.ticks es))%R).
Proof.
  induction es as [|e es IH]; intros g.
  - cbn. split; [lra | intros _ _; lra].
  - rewrite run_cons, ticks_cons.
    destruct (IH (Anim.step g e)) as [Hb Heq].
    pose proof (step_clock g e) as Hs. split; [lra|].
    intros Hrun Hno.
    assert (Hne : e <> Anim.disable) by (intros ->; apply Hno; now left).
    assert (Hno' : ~ In Anim.disable es) by (intros H; apply Hno; now right).
    assert (Hstep : Anim.phase (Anim.step g e) = Anim.Running
                    /\ Anim.timeRef (Anim.step g e)
                       = (Anim.timeRef g + 0.1 * INR (Room.ticks [e]))%R).
    { destruct e; cbn [Anim.step].
      - split; [reflexivity|]. cbn. lra.
      - contradiction.
      - split; [now rewrite tick_phase|].
        rewrite tick_running_time by exact Hrun. cbn. lra. }
    destruct Hstep as [Hp Ht]. rewrite (Heq Hp Hno'), Ht. lra.
Qed.

Lemma clock_counts_running_ticks_witness :
  Anim.timeRef
    (Anim.run (Anim.mount true 0)
       [Anim.frame; Anim.enable; Anim.frame; Anim.frame])
  = (Anim.timeRef (Anim.mount true 0)
     + 0.1 * INR (Room.ticks
                    [Anim.frame; Anim.enable; Anim.frame; Anim.frame]))%R.
Proof.
  apply (@clock_counts_running_ticks
           [Anim.frame; Anim.enable; Anim.frame; Anim.frame]
           (Anim.mount true 0)).
  - reflexivity.
  - intros [H|[H|[H|[H|[]]]]]; discriminate H.
Defined.

Lemma step_in_step g1 g2 e :
  Room.in_step g1 g2 -> Room.in_step (Anim.step g1 e) (Anim.step g2 e).
Proof.
  unfold Room.in_step. intros [Ht Ha]. destruct e; cbn [Anim.step].
  - split; [exact Ht | reflexivity].
  - split; [exact Ht | reflexivity].
  - unfold Anim.tick. rewrite <- Ha.
    destruct (Anim.animateRef g1) eqn:E; cbn; rewrite ?E; split; auto.
    now rewrite Ht.
Qed.

(** X23.  The tiles of a room keep one time: each tile has a clock of its
    own, but two tiles mounted with the same [animate] and going through
    the same events, whatever their columns, have equal clocks and are in
    the same phase at every moment; at a tick while Running the elevation
    of one is [16 * cos (t - its column)] with [t] the clock of the
    other. *)
Theorem tiles_keep_one_time :
  forall (animate : bool) (col1 col2 : R) (es : list Anim.event),
    let g1 := Anim.run (Anim.mount animate col1) es in
    let g2 := Anim.run (Anim.mount animate col2) es in
    Anim.timeRef g1 = Anim.timeRef g2
    /\ Anim.phase g1 = Anim.phase g2
    /\ (Anim.phase g1 = Anim.Running ->
        Anim.elevation (Anim.tick g1)
        = (16 * cos (Anim.timeRef (Anim.tick g2) - col1))%R).
Proof.
  intros animate col1 col2 es.
  assert (H : forall g1 g2, Room.in_step g1 g2 ->
                            Room.in_step (Anim.run g1 es) (Anim.run g2 es)).
  { induction es as [|e es IH]; intros g1 g2 Hs; [exact Hs|].
    rewrite !run_cons. apply IH. now apply step_in_step. }
  destruct (H (Anim.mount animate col1) (Anim.mount animate col2))
    as [Ht Ha]; [split; reflexivity|].
  cbv zeta.
  assert (Hp : Anim.phase (Anim.run (Anim.mount animate col1) es)
               = Anim.phase (Anim.run (Anim.mount animate col2) es))
    by (unfold Anim.phase; now rewrite Ha).
  split; [exact Ht|]. split; [exact Hp|].
  intros Hrun.
  rewrite tick_running_time by (rewrite <- Hp; exact Hrun).
  rewrite <- Ht.
  destruct (@run_on_wave es (Anim.mount animate col1)) as [_ Hx].
  { left. unfold Anim.mount, Anim.animate_effect; cbn. now destruct animate. }
  change (Anim.x (Anim.mount animate col1)) with col1 in Hx.
  revert Hrun Hx.
  generalize (Anim.run (Anim.mount animate col1) es) as g1.
  intros g1 Hrun Hx. unfold Anim.phase in Hrun. unfold Anim.tick.
  destruct (Anim.animateRef g1); [|discriminate].
  cbn. now rewrite Hx.
Qed.

Lemma tiles_keep_one_time_witness :
  Anim.elevation (Anim.tick (Anim.run (Anim.mount true 0) [Anim.frame]))
  = (16 * cos (Anim.timeRef
                 (Anim.tick (Anim.run (Anim.mount true 5) [Anim.frame])) - 0))%R.
Proof.
  destruct (@tiles_keep_one_time true 0%R 5%R [Anim.frame]) as [_ [_ H]].
  apply H. reflexivity.
Defined.
